(** * Shut the Box: the solution search, the removal strategies and the game loop

    A shallow embedding of [shut_the_box.py].  Python integers are [Z] and
    Python lists are [list].  A method that mutates [self.answer] takes the
    answer before the call and returns the answer after it; code that can
    raise returns a [res]; the random module is a stream of raw draws. *)

From stdpp Require Import list sorting sets.

Local Open Scope Z_scope.

(** ** Results of running Python code *)

(** The exceptions the program can meet. *)
Inductive exn : Set :=
| NotImplementedError
| ValueError
| IndexError
| NameError.

(** A call returns a value, raises, or (for the recursive searches and the
    [while] loop, which the embedding runs on a step budget) exhausts the
    budget it was given. *)
Inductive res (A : Type) : Type :=
| Done (a : A)
| Raised (e : exn)
| OutOfFuel.

Arguments Done {A} a.
Arguments Raised {A} e.
Arguments OutOfFuel {A}.

#[global] Instance res_ret : MRet res := λ A a, Done a.

#[global] Instance res_bind : MBind res := λ A B f m,
  match m with
  | Done a => f a
  | Raised e => Raised e
  | OutOfFuel => OutOfFuel
  end.

(** [o] when it holds a value, the exception [e] otherwise. *)
Definition or_raise {A} (e : exn) (o : option A) : res A :=
  match o with
  | Some a => Done a
  | None => Raised e
  end.

(** ** The Python built-ins the program uses *)

Module Py.

(** [sum(l)]: a left fold starting from 0. *)
Definition sum (l : list Z) : Z := foldl Z.add 0 l.

(** [l.remove(x)] drops the first occurrence of [x]; [None] stands for the
    [ValueError] raised when [x] does not occur. *)
Fixpoint list_remove (x : Z) (l : list Z) : option (list Z) :=
  match l with
  | [] => None
  | y :: l' =>
      if bool_decide (y = x) then Some l'
      else cons y <$> list_remove x l'
  end.

(** One step of a stable insertion sort: [x], which stood before every
    element of [l], goes in front of the first element that must not precede
    it. *)
Fixpoint insert_sorted {A} (key : A → Z) (reverse : bool) (x : A) (l : list A)
    : list A :=
  match l with
  | [] => [x]
  | y :: l' =>
      if (if reverse then bool_decide (key x < key y)
          else bool_decide (key y < key x))
      then y :: insert_sorted key reverse x l'
      else x :: l
  end.

(** [sorted(l, key=key, reverse=reverse)]: a stable sort. *)
Definition sorted {A} (key : A → Z) (reverse : bool) (l : list A) : list A :=
  foldr (insert_sorted key reverse) [] l.

(** [min(...)] and [max(...)] over lengths; both raise on an empty
    argument. *)
Definition min (l : list nat) : res nat :=
  match l with
  | [] => Raised ValueError
  | x :: l' => Done (foldl Nat.min x l')
  end.

Definition max (l : list nat) : res nat :=
  match l with
  | [] => Raised ValueError
  | x :: l' => Done (foldl Nat.max x l')
  end.

(** The two tie-breaks the script passes as [secondary_strategy]: [min] and
    [lambda x: -1 * max(x)].  On the empty list, where Python raises, they
    are 0: an enumerated solution of a positive roll is never empty. *)
Definition min_number (x : list Z) : Z :=
  match x with
  | [] => 0
  | n :: x' => foldl Z.min n x'
  end.

Definition neg_max_number (x : list Z) : Z :=
  match x with
  | [] => 0
  | n :: x' => -1 * foldl Z.max n x'
  end.

(** [l[0]]. *)
Definition first {A} (l : list A) : res A := or_raise IndexError (head l).

(** The random source: the raw draws still to come. *)
Definition rng : Type := nat → nat.

Definition advance (r : rng) : rng := λ i, r (S i).

(** [randint(a, b)]: the next draw, brought into [a..b]. *)
Definition randint (a b : Z) (r : rng) : Z * rng :=
  (a + Z.of_nat (r O) `mod` (b - a + 1), advance r).

(** [choice(seq)]: the element at the next draw, brought below [len(seq)];
    [IndexError] on an empty sequence. *)
Definition choice {A} (seq : list A) (r : rng) : res (A * rng) :=
  x ← or_raise IndexError (seq !! (r O `mod` length seq)%nat);
  Done (x, advance r).

End Py.

(** ** [find_all_solutions]

    The inner function [recurse] appends to the list [solutions] of the
    enclosing call; the list is threaded through.  [recurse_for] is the loop
    [for index, number in enumerate(numbers)]: at the element [number],
    followed by [rest = numbers[index + 1:]], it runs the body of [recurse]
    on [rest] and goes on with the next index. *)

Fixpoint recurse_for (numbers : list Z) (target : Z) (subsolution : list Z)
    (solutions : list (list Z)) : list (list Z) :=
  match numbers with
  | [] => solutions
  | number :: rest =>
      let target' := target - number in
      let subsolution' := subsolution ++ [number] in
      let solutions :=
        if bool_decide (target' = 0) then solutions ++ [subsolution']
        else solutions in
      let solutions :=
        if bool_decide (target' < 0) then solutions
        else recurse_for rest target' subsolution' solutions in
      recurse_for rest target subsolution solutions
  end.

Definition recurse (numbers : list Z) (target : Z) (subsolution : list Z)
    (solutions : list (list Z)) : list (list Z) :=
  let solutions :=
    if bool_decide (target = 0) then solutions ++ [subsolution]
    else solutions in
  if bool_decide (target < 0) then solutions
  else recurse_for numbers target subsolution solutions.

Definition find_all_solutions (numbers : list Z) (target : Z) : list (list Z) :=
  recurse numbers target [] [].

(** ** The greedy strategies

    [choose_numbers] returns [True] or [False] and leaves the chosen numbers
    in [self.answer].  The [for] loop of each is a function of the recursive
    call [self_call], of the list [numbers] being iterated and copied, and of
    the numbers [todo] still to visit. *)

Section greedy_loops.
Variable self_call : list Z → Z → list Z → res (bool * list Z).
Variables (numbers : list Z) (roll : Z).

Fixpoint LowestFirst_for (todo : list Z) (answer : list Z)
    : res (bool * list Z) :=
  match todo with
  | [] => Done (false, answer)
  | number :: todo =>
      if bool_decide (number > roll) then Done (false, answer)
      else
        let answer := answer ++ [number] in
        new_nums ← or_raise ValueError (Py.list_remove number numbers);
        '(found, answer) ← self_call new_nums (roll - number) answer;
        if found : bool then Done (true, answer)
        else
          answer ← or_raise ValueError (Py.list_remove number answer);
          LowestFirst_for todo answer
  end.

Fixpoint HighestFirst_for (todo : list Z) (answer : list Z)
    : res (bool * list Z) :=
  match todo with
  | [] => Done (false, answer)
  | number :: todo =>
      if bool_decide (number > roll) then HighestFirst_for todo answer
      else
        let answer := answer ++ [number] in
        new_nums ← or_raise ValueError (Py.list_remove number numbers);
        '(found, answer) ← self_call new_nums (roll - number) answer;
        if found : bool then Done (true, answer)
        else
          answer ← or_raise ValueError (Py.list_remove number answer);
          HighestFirst_for todo answer
  end.

End greedy_loops.

Fixpoint LowestFirst_choose_numbers_in (fuel : nat) (numbers : list Z)
    (roll : Z) (answer : list Z) : res (bool * list Z) :=
  match fuel with
  | O => OutOfFuel
  | S fuel =>
      if bool_decide (roll = 0) then Done (true, answer)
      else
        LowestFirst_for (LowestFirst_choose_numbers_in fuel)
          numbers roll numbers answer
  end.

Fixpoint HighestFirst_choose_numbers_in (fuel : nat) (numbers : list Z)
    (roll : Z) (answer : list Z) : res (bool * list Z) :=
  match fuel with
  | O => OutOfFuel
  | S fuel =>
      if bool_decide (roll = 0) then Done (true, answer)
      else
        let numbers := Py.sorted id true numbers in
        HighestFirst_for (HighestFirst_choose_numbers_in fuel)
          numbers roll numbers answer
  end.

(** Every recursive call receives a list one shorter, so a budget of one
    more than the length is never exhausted ([LowestFirst_fuel_enough],
    [HighestFirst_fuel_enough]). *)
Definition LowestFirst_choose_numbers (numbers : list Z) (roll : Z)
    (answer : list Z) : res (bool * list Z) :=
  LowestFirst_choose_numbers_in (S (length numbers)) numbers roll answer.

Definition HighestFirst_choose_numbers (numbers : list Z) (roll : Z)
    (answer : list Z) : res (bool * list Z) :=
  HighestFirst_choose_numbers_in (S (length numbers)) numbers roll answer.

(** ** The exact-match strategies

    Both subclasses have the same body; [super_choose_numbers] is the method
    [super().choose_numbers] resolves to.  They return [None] on both paths:
    only the answer after the call is of interest. *)

Definition ExactThen_choose_numbers
    (super_choose_numbers : list Z → Z → list Z → res (bool * list Z))
    (numbers : list Z) (roll : Z) (answer : list Z) : res (list Z) :=
  if bool_decide (roll ∈ numbers) then Done (answer ++ [roll])
  else
    '(_, answer) ← super_choose_numbers numbers roll answer;
    Done answer.

Definition ExactThenLowest_choose_numbers : list Z → Z → list Z → res (list Z) :=
  ExactThen_choose_numbers LowestFirst_choose_numbers.

Definition ExactThenHighest_choose_numbers : list Z → Z → list Z → res (list Z) :=
  ExactThen_choose_numbers HighestFirst_choose_numbers.

(** ** The strategies that enumerate every solution

    [secondary_strategy] is the ranking function given to the constructor
    of a [SolutionLength] class: a total function from a solution to an
    integer key, as the specification describes it. *)

Definition Random_choose_numbers (numbers : list Z) (roll : Z)
    (answer : list Z) (r : Py.rng) : res (list Z * Py.rng) :=
  let solutions := find_all_solutions numbers roll in
  match solutions with
  | [] => Done (answer, r)
  | _ :: _ => Py.choice solutions r
  end.

Definition FewestNumbers_choose_numbers (secondary_strategy : list Z → Z)
    (numbers : list Z) (roll : Z) (answer : list Z) : res (list Z) :=
  let solutions := find_all_solutions numbers roll in
  match solutions with
  | [] => Done answer
  | _ :: _ =>
      shortest_solution_length ← Py.min (length <$> solutions);
      Py.first
        (Py.sorted secondary_strategy false
           (filter (λ solution, length solution = shortest_solution_length)
              solutions))
  end.

Definition MostNumbers_choose_numbers (secondary_strategy : list Z → Z)
    (numbers : list Z) (roll : Z) (answer : list Z) : res (list Z) :=
  let solutions := find_all_solutions numbers roll in
  match solutions with
  | [] => Done answer
  | _ :: _ =>
      shortest_solution_length ← Py.max (length <$> solutions);
      Py.first
        (Py.sorted secondary_strategy false
           (filter (λ solution, length solution = shortest_solution_length)
              solutions))
  end.

(** ** The class hierarchy

    One constructor per class; the [SolutionLength] classes carry the
    [secondary_strategy] given to their constructor. *)

Inductive strategy : Type :=
| Strategy
| LowestFirst
| HighestFirst
| ExactThenLowest
| ExactThenHighest
| Random
| SolutionLength (secondary_strategy : list Z → Z)
| FewestNumbers (secondary_strategy : list Z → Z)
| MostNumbers (secondary_strategy : list Z → Z).

(** [self.choose_numbers(numbers, roll)] as the game loop calls it: the
    return value is dropped, the answer and the random source are kept. *)
Definition choose_numbers (self : strategy) (numbers : list Z) (roll : Z)
    (answer : list Z) (r : Py.rng) : res (list Z * Py.rng) :=
  match self with
  | Strategy => Raised NotImplementedError
  | LowestFirst =>
      '(_, answer) ← LowestFirst_choose_numbers numbers roll answer;
      Done (answer, r)
  | HighestFirst =>
      '(_, answer) ← HighestFirst_choose_numbers numbers roll answer;
      Done (answer, r)
  | ExactThenLowest =>
      answer ← ExactThenLowest_choose_numbers numbers roll answer;
      Done (answer, r)
  | ExactThenHighest =>
      answer ← ExactThenHighest_choose_numbers numbers roll answer;
      Done (answer, r)
  | Random => Random_choose_numbers numbers roll answer r
  | SolutionLength _ => Raised NotImplementedError
  | FewestNumbers secondary_strategy =>
      answer ← FewestNumbers_choose_numbers secondary_strategy numbers roll answer;
      Done (answer, r)
  | MostNumbers secondary_strategy =>
      answer ← MostNumbers_choose_numbers secondary_strategy numbers roll answer;
      Done (answer, r)
  end.

(** The classes that define [choose_numbers] without raising. *)
Definition is_policy (self : strategy) : bool :=
  match self with
  | Strategy | SolutionLength _ => false
  | _ => true
  end.

(** ** The game

    [Game.play] reads [self.strategy.answer] in the loop test, but
    [strategy.answer] (the module-level name [strategy]) in the loop body.
    [binding] says what that name denotes when [play] runs: nothing, the
    very object held in [self.strategy] (as in the script's main block), or
    another object, of which only the [answer] attribute matters. *)

Inductive binding : Type :=
| Unbound
| SelfStrategy
| OtherObject (answer : list Z).

Record state : Type := State {
  numbers : list Z;          (* self.numbers *)
  answer : list Z;           (* self.strategy.answer *)
  global_strategy : binding; (* the module-level name strategy *)
  random : Py.rng
}.

(** [Game.__init__] for a strategy object whose answer is [answer]. *)
Definition Game_init (answer : list Z) (global : binding) (r : Py.rng) : state :=
  State [1; 2; 3; 4; 5; 6; 7; 8; 9] answer global r.

Definition Game_roll (st : state) : Z * state :=
  if bool_decide (numbers st = [1]) then
    let '(die, r) := Py.randint 1 6 (random st) in
    (die, State (numbers st) (answer st) (global_strategy st) r)
  else
    let '(die1, r) := Py.randint 1 6 (random st) in
    let '(die2, r) := Py.randint 1 6 r in
    (die1 + die2, State (numbers st) (answer st) (global_strategy st) r).

Definition Game_score (st : state) : Z := Py.sum (numbers st).

(** [strategy.answer], read through the module-level name. *)
Definition global_answer (st : state) : res (list Z) :=
  match global_strategy st with
  | Unbound => Raised NameError
  | SelfStrategy => Done (answer st)
  | OtherObject other => Done other
  end.

(** [strategy.answer = []], written through the module-level name. *)
Definition reset_global_answer (st : state) : res state :=
  match global_strategy st with
  | Unbound => Raised NameError
  | SelfStrategy => Done (State (numbers st) [] SelfStrategy (random st))
  | OtherObject _ =>
      Done (State (numbers st) (answer st) (OtherObject []) (random st))
  end.

(** [for number in chosen: numbers.remove(number)]. *)
Fixpoint remove_each (chosen : list Z) (numbers : list Z) : res (list Z) :=
  match chosen with
  | [] => Done numbers
  | number :: chosen =>
      numbers ← or_raise ValueError (Py.list_remove number numbers);
      remove_each chosen numbers
  end.

(** [roll = self.roll(); self.strategy.choose_numbers(self.numbers, roll)]. *)
Definition roll_and_choose (self_strategy : strategy) (st : state) : res state :=
  let '(roll, st) := Game_roll st in
  '(chosen, r) ← choose_numbers self_strategy (numbers st) roll (answer st) (random st);
  Done (State (numbers st) chosen (global_strategy st) r).

(** One pass through the body of the [while] loop. *)
Definition Game_play_body (self_strategy : strategy) (st : state) : res state :=
  chosen ← global_answer st;
  remaining ← remove_each chosen (numbers st);
  st ← reset_global_answer
    (State remaining (answer st) (global_strategy st) (random st));
  roll_and_choose self_strategy st.

(** Python truthiness of a list. *)
Definition truthy {A} (l : list A) : bool :=
  match l with
  | [] => false
  | _ :: _ => true
  end.

Fixpoint Game_play_while (fuel : nat) (self_strategy : strategy) (st : state)
    : res state :=
  if truthy (numbers st) && truthy (answer st) then
    match fuel with
    | O => OutOfFuel
    | S fuel =>
        st ← Game_play_body self_strategy st;
        Game_play_while fuel self_strategy st
    end
  else Done st.

Definition Game_play (fuel : nat) (self_strategy : strategy) (st : state)
    : res state :=
  st ← roll_and_choose self_strategy st;
  Game_play_while fuel self_strategy st.

(** ** The vocabulary of the specification *)

(** A NumberSet: distinct integers between 1 and 9, in any order. *)
Definition NumberSet (numbers : list Z) : Prop :=
  NoDup numbers ∧ Forall (λ n, 1 ≤ n ≤ 9) numbers.

#[global] Instance NumberSet_dec (numbers : list Z) : Decision (NumberSet numbers).
Proof. unfold NumberSet. apply _. Defined.

(** Two lists hold the same numbers. *)
Definition same_set (a b : list Z) : Prop := ∀ x, x ∈ a ↔ x ∈ b.

(** [s] is a subset of [numbers] with no repeated element that sums to
    [target]. *)
Definition solves (numbers : list Z) (target : Z) (s : list Z) : Prop :=
  NoDup s ∧ s ⊆ numbers ∧ Py.sum s = target.

(** No number of [numbers] is in the answer yet. *)
Definition fresh_for (answer numbers : list Z) : Prop :=
  ∀ x, x ∈ answer → x ∉ numbers.

(** What a greedy search owes its caller, [answer] being the answer before
    the call: on [True] the answer extended by a solution, on [False] the
    answer as it was. *)
Definition greedy_result (numbers : list Z) (roll : Z) (answer : list Z)
    (out : res (bool * list Z)) : Prop :=
  ∃ (found : bool) answer',
    out = Done (found, answer')
    ∧ if found then ∃ r, answer' = answer ++ r ∧ solves numbers roll r
      else answer' = answer.

(** The course of a game as the specification tells it, from the numbers
    on the board and the random source to the numbers left at the end.  A
    turn is a roll and a choice made from the empty answer: a choice that is
    not empty is taken off the board and the game goes on; the first empty
    choice ends it. *)
Inductive plays (self : strategy) : list Z → Py.rng → list Z → Prop :=
| plays_end board r roll st r' :
    Game_roll (State board [] SelfStrategy r) = (roll, st) →
    choose_numbers self board roll [] (random st) = Done ([], r') →
    plays self board r board
| plays_turn board r roll st chosen r' remaining :
    Game_roll (State board [] SelfStrategy r) = (roll, st) →
    choose_numbers self board roll [] (random st) = Done (chosen, r') →
    chosen ≠ [] →
    plays self (list_difference board chosen) r' remaining →
    plays self board r remaining.

(** The numbers are listed in increasing order. *)
Definition ascending (numbers : list Z) : Prop := StronglySorted Z.lt numbers.

(** What a greedy search returns whatever the answer before the call, up
    to the order of the answer: on [True] the answer and a selection of the
    numbers, each taken as often as it is listed, that sums to the roll; on
    [False] the answer. *)
Definition greedy_returns (numbers : list Z) (roll : Z) (answer : list Z)
    (out : res (bool * list Z)) : Prop :=
  ∃ (found : bool) answer',
    out = Done (found, answer')
    ∧ if found
      then ∃ r, answer' ≡ₚ answer ++ r ∧ r ⊆+ numbers ∧ Py.sum r = roll
      else answer' ≡ₚ answer.

(** The course of a game, as [plays] tells it, with the roll of the turn
    that ended it. *)
Inductive plays_until (self : strategy) : list Z → Py.rng → list Z → Z → Prop :=
| plays_until_end board r roll st r' :
    Game_roll (State board [] SelfStrategy r) = (roll, st) →
    choose_numbers self board roll [] (random st) = Done ([], r') →
    plays_until self board r board roll
| plays_until_turn board r roll st chosen r' remaining last :
    Game_roll (State board [] SelfStrategy r) = (roll, st) →
    choose_numbers self board roll [] (random st) = Done (chosen, r') →
    chosen ≠ [] →
    plays_until self (list_difference board chosen) r' remaining last →
    plays_until self board r remaining last.

(** Every sublist of a list, each once when the list has no repeated
    element: the boards a game can come to are those of the full board. *)
Fixpoint sublists (l : list Z) : list (list Z) :=
  match l with
  | [] => [[]]
  | x :: l' => (cons x <$> sublists l') ++ sublists l'
  end.

#[global] Instance exn_eq_dec : EqDecision exn.
Proof. solve_decision. Defined.

#[global] Instance res_eq_dec {A} `{EqDecision A} : EqDecision (res A).
Proof. solve_decision. Defined.

(** The numbers are listed in decreasing order. *)
Definition descending (numbers : list Z) : Prop :=
  StronglySorted (λ a b, b < a) numbers.

(** ** The main block

    [for i in range(n)] with one strategy object for all the games: each
    [Game(strategy)] starts from the full board and from the answer the
    game before left in the strategy; the scores are appended to [scores].
    In the script the module-level name [strategy] is that object, [n] is
    1000 and the strategy is [MostNumbers(secondary_strategy=min)].
    [fuel] is the budget of each [while] loop.  The two [print] calls, and
    the average they show, are left out. *)

Fixpoint main_games (fuel n : nat) (self : strategy) (strategy_answer : list Z)
    (r : Py.rng) (scores : list Z) : res (list Z * list Z * Py.rng) :=
  match n with
  | O => Done (scores, strategy_answer, r)
  | S n =>
      game ← Game_play fuel self (Game_init strategy_answer SelfStrategy r);
      main_games fuel n self (answer game) (random game)
        (scores ++ [Game_score game])
  end.

Definition main (fuel : nat) (r : Py.rng) : res (list Z * list Z * Py.rng) :=
  main_games fuel 1000 (MostNumbers Py.min_number) [] r [].

(** ** Facts about the built-ins *)

Lemma sum_foldl (l : list Z) (acc : Z) : foldl Z.add acc l = acc + Py.sum l.
Proof.
  unfold Py.sum. revert acc.
  induction l as [|x l IH]; intros acc; simpl; [lia|].
  rewrite (IH (acc + x)), (IH (0 + x)). lia.
Qed.

Lemma sum_nil : Py.sum [] = 0.
Proof. reflexivity. Qed.

Lemma sum_cons (x : Z) (l : list Z) : Py.sum (x :: l) = x + Py.sum l.
Proof. unfold Py.sum at 1. simpl. rewrite sum_foldl. lia. Qed.

Lemma sum_app (l k : list Z) : Py.sum (l ++ k) = Py.sum l + Py.sum k.
Proof.
  induction l as [|x l IH]; simpl; [rewrite sum_nil; lia|].
  rewrite !sum_cons, IH. lia.
Qed.

Lemma sum_Permutation (l k : list Z) : l ≡ₚ k → Py.sum l = Py.sum k.
Proof. induction 1; rewrite ?sum_cons in *; lia. Qed.

Lemma sum_nonneg (l : list Z) : Forall (λ n, 0 < n) l → 0 ≤ Py.sum l.
Proof. induction 1; rewrite ?sum_cons, ?sum_nil; lia. Qed.

Lemma sum_pos (l : list Z) : Forall (λ n, 0 < n) l → l ≠ [] → 0 < Py.sum l.
Proof.
  destruct 1 as [|x l Hx Hl]; [done|]. intros _.
  rewrite sum_cons. apply sum_nonneg in Hl. lia.
Qed.

Lemma sum_elem_le (l : list Z) (x : Z) :
  Forall (λ n, 0 < n) l → x ∈ l → x ≤ Py.sum l.
Proof.
  induction 1 as [|y l Hy Hl IH]; [by intros ?%elem_of_nil|].
  rewrite sum_cons. apply sum_nonneg in Hl as Hs.
  intros [->|Hin]%elem_of_cons; [lia|]. specialize (IH Hin). lia.
Qed.

Lemma NumberSet_positive (numbers : list Z) :
  NumberSet numbers → Forall (λ n, 0 < n) numbers.
Proof. intros [_ H]. eapply Forall_impl; [exact H|]. simpl. lia. Qed.

Lemma positive_subseteq (s numbers : list Z) :
  Forall (λ n, 0 < n) numbers → s ⊆ numbers → Forall (λ n, 0 < n) s.
Proof. rewrite !Forall_forall. auto. Qed.

(** ** [find_all_solutions]: what the search appends *)

(** The loop only appends to [solutions]. *)
Lemma recurse_for_app (numbers : list Z) :
  ∀ target subsolution solutions,
    recurse_for numbers target subsolution solutions
    = solutions ++ recurse_for numbers target subsolution [].
Proof.
  induction numbers as [|number rest IH]; intros target sub sols; simpl.
  { by rewrite app_nil_r. }
  rewrite (IH target sub).
  rewrite (IH target sub (if bool_decide (target - number < 0) then _ else _)).
  repeat case_bool_decide; try lia;
    rewrite ?(IH (target - number) (sub ++ [number]) (_ ++ _)),
      ?(IH (target - number) (sub ++ [number]) sols),
      ?(IH (target - number) (sub ++ [number]) [_]);
    by rewrite ?app_nil_r, <-?app_assoc.
Qed.

(** One pass of the loop is a call of [recurse] on the rest of the list. *)
Lemma recurse_for_cons (number : Z) (rest : list Z) target subsolution solutions :
  recurse_for (number :: rest) target subsolution solutions
  = recurse_for rest target subsolution
      (recurse rest (target - number) (subsolution ++ [number]) solutions).
Proof. reflexivity. Qed.

(** What a call and a pass of the loop append to an empty [solutions]. *)
Lemma recurse_nil (numbers : list Z) target subsolution :
  recurse numbers target subsolution []
  = (if bool_decide (target = 0) then [subsolution] else [])
    ++ (if bool_decide (target < 0) then []
        else recurse_for numbers target subsolution []).
Proof.
  unfold recurse. repeat case_bool_decide; simpl;
    by rewrite ?(recurse_for_app _ _ _ [_]), ?app_nil_r.
Qed.

Lemma recurse_for_cons_nil (number : Z) (rest : list Z) target subsolution :
  recurse_for (number :: rest) target subsolution []
  = recurse rest (target - number) (subsolution ++ [number]) []
    ++ recurse_for rest target subsolution [].
Proof. by rewrite recurse_for_cons, recurse_for_app. Qed.

Lemma elem_of_recurse_nil (numbers : list Z) target subsolution x :
  x ∈ recurse numbers target subsolution []
  ↔ (x = subsolution ∧ target = 0)
    ∨ (0 ≤ target ∧ x ∈ recurse_for numbers target subsolution []).
Proof.
  rewrite recurse_nil, elem_of_app.
  repeat case_bool_decide; rewrite ?list_elem_of_singleton, ?elem_of_nil;
    intuition lia.
Qed.

(** Everything the loop appends extends [subsolution] by a non-empty
    sublist of [numbers] that sums to [target]. *)
Lemma recurse_for_sound (numbers : list Z) :
  ∀ target subsolution x,
    x ∈ recurse_for numbers target subsolution [] →
    ∃ r, r ≠ [] ∧ x = subsolution ++ r ∧ r `sublist_of` numbers
         ∧ Py.sum r = target.
Proof.
  induction numbers as [|number rest IH]; intros target sub x.
  { by intros ?%elem_of_nil. }
  rewrite recurse_for_cons_nil, elem_of_app, elem_of_recurse_nil.
  intros [[[-> Ht]|[_ Hin]]|Hx].
  - exists [number].
    split_and!; [done|done|by apply sublist_skip, sublist_nil_l|].
    rewrite sum_cons, sum_nil. lia.
  - destruct (IH _ _ _ Hin) as (r & Hr & -> & Hsub & Hsum).
    exists (number :: r). split_and!; [done| |by apply sublist_skip|].
    + by rewrite <-app_assoc.
    + rewrite sum_cons. lia.
  - destruct (IH _ _ _ Hx) as (r & Hr & -> & Hsub & Hsum).
    exists r. split_and!; [done|done|by apply sublist_cons|done].
Qed.

(** Over positive numbers the loop appends every such extension. *)
Lemma recurse_for_complete (numbers : list Z) :
  Forall (λ n, 0 < n) numbers →
  ∀ target subsolution r,
    r ≠ [] → r `sublist_of` numbers → Py.sum r = target →
    subsolution ++ r ∈ recurse_for numbers target subsolution [].
Proof.
  induction 1 as [|number rest Hpos Hrest IH]; intros target sub r Hr Hsub Hsum.
  { by apply sublist_nil_r in Hsub. }
  rewrite recurse_for_cons_nil, elem_of_app, elem_of_recurse_nil.
  apply sublist_cons_r in Hsub as [Hsub|(r' & -> & Hsub)].
  { right. by apply IH. }
  left. rewrite sum_cons in Hsum.
  destruct (decide (r' = [])) as [->|Hr'].
  - rewrite sum_nil in Hsum. left. split; [done|lia].
  - assert (0 < Py.sum r').
    { apply sum_pos; [|done].
      eapply positive_subseteq; [exact Hrest|by apply sublist_subseteq]. }
    right. split; [lia|].
    replace (sub ++ number :: r') with ((sub ++ [number]) ++ r')
      by (by rewrite <-app_assoc).
    apply IH; [done|done|lia].
Qed.

(** A call appends nothing twice if its loop does not. *)
Lemma recurse_NoDup (numbers : list Z) target subsolution :
  NoDup (recurse_for numbers target subsolution []) →
  NoDup (recurse numbers target subsolution []).
Proof.
  intros Hfor. rewrite recurse_nil.
  destruct (decide (target = 0)) as [->|Hne].
  - rewrite bool_decide_eq_true_2, bool_decide_eq_false_2 by lia.
    simpl. apply NoDup_cons. split; [|done].
    intros (r & Hr & Heq & _)%recurse_for_sound.
    rewrite <-(app_nil_r subsolution) in Heq at 1.
    apply app_inv_head in Heq. by subst r.
  - rewrite (bool_decide_eq_false_2 (target = 0)) by done. simpl.
    case_bool_decide; [constructor|done].
Qed.

(** The loop appends nothing twice when [numbers] has no repeated element. *)
Lemma recurse_for_NoDup (numbers : list Z) :
  NoDup numbers →
  ∀ target subsolution, NoDup (recurse_for numbers target subsolution []).
Proof.
  induction 1 as [|number rest Hnotin Hnodup IH]; intros target sub.
  { constructor. }
  rewrite recurse_for_cons_nil. apply NoDup_app. split_and!.
  - apply recurse_NoDup, IH.
  - intros x Hx Hx'.
    apply recurse_for_sound in Hx' as (r & Hr & -> & Hsub & _).
    assert (∃ r', sub ++ r = sub ++ number :: r') as [r' Heq].
    { apply elem_of_recurse_nil in Hx as [[Hx _]|[_ Hx]].
      - by exists [].
      - apply recurse_for_sound in Hx as (r' & _ & -> & _ & _).
        exists r'. by rewrite <-app_assoc. }
    apply app_inv_head in Heq. subst r.
    apply Hnotin. eapply elem_of_sublist; [|exact Hsub]. set_solver.
  - apply IH.
Qed.

(** Membership in the result, over positive numbers. *)
Lemma elem_of_find_all_solutions (numbers : list Z) (target : Z) (s : list Z) :
  Forall (λ n, 0 < n) numbers →
  s ∈ find_all_solutions numbers target
  ↔ s `sublist_of` numbers ∧ Py.sum s = target.
Proof.
  intros Hpos. unfold find_all_solutions. rewrite elem_of_recurse_nil. split.
  - intros [[-> ->]|[_ Hin]].
    + split; [apply sublist_nil_l|done].
    + apply recurse_for_sound in Hin as (r & _ & -> & ? & ?). done.
  - intros [Hsub Hsum].
    destruct (decide (s = [])) as [->|Hne].
    + rewrite sum_nil in Hsum. by left.
    + assert (0 < target).
      { subst target. apply sum_pos; [|done].
        eapply positive_subseteq; [exact Hpos|by apply sublist_subseteq]. }
      right. split; [lia|].
      by apply (recurse_for_complete numbers Hpos target [] s).
Qed.

Lemma find_all_solutions_NoDup (numbers : list Z) (target : Z) :
  NoDup numbers → NoDup (find_all_solutions numbers target).
Proof. intros. by apply recurse_NoDup, recurse_for_NoDup. Qed.

(** Two sublists of a list without repetition that hold the same numbers
    are the same list. *)
Lemma sublist_same_set_eq (l a b : list Z) :
  NoDup l → a `sublist_of` l → b `sublist_of` l → same_set a b → a = b.
Proof.
  intros Hnodup. revert a b.
  induction Hnodup as [|x l Hnotin Hnodup IH]; intros a b Ha Hb Hab.
  { apply sublist_nil_r in Ha, Hb. by subst. }
  assert (∀ c, c `sublist_of` l → x ∉ c) as Hfresh.
  { intros c Hc Hx. apply Hnotin. by eapply elem_of_sublist. }
  apply sublist_cons_r in Ha as [Ha|(a' & -> & Ha)];
    apply sublist_cons_r in Hb as [Hb|(b' & -> & Hb)].
  - by apply IH.
  - exfalso. apply (Hfresh a Ha). apply Hab. set_solver.
  - exfalso. apply (Hfresh b Hb). apply Hab. set_solver.
  - f_equal. apply IH; [done|done|]. intros y.
    pose proof (Hab y) as Hy. rewrite !elem_of_cons in Hy.
    pose proof (Hfresh a' Ha). pose proof (Hfresh b' Hb).
    split; intros Hin;
      [destruct (proj1 Hy (or_intror Hin)) as [->|]
      |destruct (proj2 Hy (or_intror Hin)) as [->|]]; done.
Qed.

(** A subset of [numbers], listed in the order of [numbers]. *)
Lemma subset_as_sublist (numbers s : list Z) :
  NoDup numbers → NoDup s → s ⊆ numbers →
  filter (λ n, n ∈ s) numbers `sublist_of` numbers
  ∧ filter (λ n, n ∈ s) numbers ≡ₚ s.
Proof.
  intros Hnumbers Hs Hsub. split; [apply sublist_filter|].
  apply NoDup_Permutation; [by apply NoDup_filter|done|].
  intros x. rewrite list_elem_of_filter. split; [tauto|]. auto.
Qed.

Lemma Permutation_same_set (a b : list Z) : a ≡ₚ b → same_set a b.
Proof. intros Hab x. by rewrite Hab. Qed.

(** Every solution of a positive target is found, up to the order of its
    elements; every element found is a solution. *)
Lemma find_all_solutions_solves (numbers : list Z) (target : Z) (s : list Z) :
  NumberSet numbers → s ∈ find_all_solutions numbers target →
  solves numbers target s.
Proof.
  intros Hset Hs. pose proof Hset as [Hnodup _].
  apply elem_of_find_all_solutions in Hs as [Hsub Hsum];
    [|by apply NumberSet_positive].
  split_and!; [by eapply sublist_NoDup|by apply sublist_subseteq|done].
Qed.

Lemma solves_find_all_solutions (numbers : list Z) (target : Z) (s : list Z) :
  NumberSet numbers → solves numbers target s →
  ∃ a, a ∈ find_all_solutions numbers target ∧ a ≡ₚ s.
Proof.
  intros Hset (Hs & Hsub & Hsum). pose proof Hset as [Hnodup _].
  destruct (subset_as_sublist numbers s) as [Hsl Hperm]; [done..|].
  eexists. split; [|exact Hperm].
  apply elem_of_find_all_solutions; [by apply NumberSet_positive|].
  split; [done|]. by rewrite (sum_Permutation _ _ Hperm).
Qed.

(** No two positions of the result hold the same set of numbers. *)
Lemma find_all_solutions_position (numbers : list Z) (target : Z) i j a b :
  NumberSet numbers →
  find_all_solutions numbers target !! i = Some a →
  find_all_solutions numbers target !! j = Some b →
  same_set a b → i = j.
Proof.
  intros Hset Hi Hj Hab. pose proof Hset as [Hnodup _].
  pose proof (NumberSet_positive _ Hset) as Hpos.
  assert (a = b) as ->.
  { apply (sublist_same_set_eq numbers); [done| | |done].
    - eapply elem_of_find_all_solutions; [done|].
      by eapply list_elem_of_lookup_2.
    - eapply elem_of_find_all_solutions; [done|].
      by eapply list_elem_of_lookup_2. }
  eapply NoDup_lookup; [|exact Hi|exact Hj].
  by apply find_all_solutions_NoDup.
Qed.

(** ** The claims about [find_all_solutions] *)

(** C1. Soundness of the search: over a list of distinct integers between 1
    and 9 and a target that is not negative, every solution returned is a
    list without repetition, drawn from [numbers] in their order, whose sum
    is the target; and no two positions of the result hold the same set of
    numbers. *)
Theorem find_all_solutions_sound (numbers : list Z) (target : Z) :
  NumberSet numbers → 0 ≤ target →
  (∀ s, s ∈ find_all_solutions numbers target →
        NoDup s ∧ s `sublist_of` numbers ∧ Py.sum s = target)
  ∧ (∀ i j a b,
        find_all_solutions numbers target !! i = Some a →
        find_all_solutions numbers target !! j = Some b →
        same_set a b → i = j).
Proof.
  intros Hset _. pose proof Hset as [Hnodup _].
  pose proof (NumberSet_positive _ Hset) as Hpos. split.
  - intros s [Hsub Hsum]%elem_of_find_all_solutions; [|done].
    split_and!; [by eapply sublist_NoDup|done|done].
  - intros i j a b. by apply find_all_solutions_position.
Qed.

Lemma find_all_solutions_sound_witness :
  (∀ s, s ∈ find_all_solutions [1; 2; 3; 4] 5 →
        NoDup s ∧ s `sublist_of` [1; 2; 3; 4] ∧ Py.sum s = 5)
  ∧ (∀ i j a b,
        find_all_solutions [1; 2; 3; 4] 5 !! i = Some a →
        find_all_solutions [1; 2; 3; 4] 5 !! j = Some b →
        same_set a b → i = j).
Proof. apply (find_all_solutions_sound [1; 2; 3; 4] 5); [compute_done|lia]. Defined.

(** C2. Completeness of the search: over a list of distinct integers between
    1 and 9 and a target that is not negative, every subset of [numbers]
    that sums to the target appears at exactly one position of the result
    (there as a list of the same numbers); and for [1, 2, 3, 4] and 5 the
    result is the two subsets {1, 4} and {2, 3}. *)
Theorem find_all_solutions_complete (numbers : list Z) (target : Z) :
  NumberSet numbers → 0 ≤ target →
  (∀ s, solves numbers target s →
        ∃ i a,
          find_all_solutions numbers target !! i = Some a
          ∧ a ≡ₚ s
          ∧ ∀ j b, find_all_solutions numbers target !! j = Some b →
                   same_set b s → j = i)
  ∧ find_all_solutions [1; 2; 3; 4] 5 = [[1; 4]; [2; 3]].
Proof.
  intros Hset Htarget. split; [|reflexivity].
  intros s Hs.
  destruct (solves_find_all_solutions numbers target s Hset Hs)
    as (a & [i Hi]%list_elem_of_lookup_1 & Hperm).
  exists i, a. split_and!; [done|done|].
  intros j b Hj Hb.
  apply (find_all_solutions_position numbers target j i b a Hset Hj Hi).
  intros x. rewrite (Hb x). by rewrite Hperm.
Qed.

Lemma find_all_solutions_complete_witness :
  (∀ s, solves [1; 2; 3; 4; 5] 6 s →
        ∃ i a,
          find_all_solutions [1; 2; 3; 4; 5] 6 !! i = Some a
          ∧ a ≡ₚ s
          ∧ ∀ j b, find_all_solutions [1; 2; 3; 4; 5] 6 !! j = Some b →
                   same_set b s → j = i)
  ∧ find_all_solutions [1; 2; 3; 4] 5 = [[1; 4]; [2; 3]].
Proof.
  apply (find_all_solutions_complete [1; 2; 3; 4; 5] 6); [compute_done|lia].
Defined.

(** The loop appends nothing when the target is not positive. *)
Lemma recurse_for_nonpositive (numbers : list Z) :
  Forall (λ n, 0 < n) numbers →
  ∀ target subsolution solutions,
    target ≤ 0 → recurse_for numbers target subsolution solutions = solutions.
Proof.
  induction 1 as [|number rest Hpos Hrest IH]; intros target sub sols Ht; [done|].
  simpl.
  rewrite (bool_decide_eq_false_2 (target - number = 0)) by lia.
  rewrite (bool_decide_eq_true_2 (target - number < 0)) by lia.
  by apply IH.
Qed.

(** C10. The target 0: over any list of distinct integers between 1 and 9,
    the empty list included, the search returns exactly one solution, the
    empty list. *)
Theorem find_all_solutions_zero (numbers : list Z) :
  NumberSet numbers → find_all_solutions numbers 0 = [[]].
Proof.
  intros Hset%NumberSet_positive. unfold find_all_solutions, recurse. simpl.
  by apply recurse_for_nonpositive.
Qed.

Lemma find_all_solutions_zero_witness :
  find_all_solutions [] 0 = [[]] ∧ find_all_solutions [3; 1; 9] 0 = [[]].
Proof.
  split.
  - apply (find_all_solutions_zero []). compute_done.
  - apply (find_all_solutions_zero [3; 1; 9]). compute_done.
Defined.

(** ** [list.remove] *)

Lemma list_remove_Some (x : Z) (l l' : list Z) :
  Py.list_remove x l = Some l' →
  ∃ l1 l2, l = l1 ++ x :: l2 ∧ l' = l1 ++ l2 ∧ x ∉ l1.
Proof.
  revert l'. induction l as [|y l IH]; intros l' Hrm; simpl in Hrm; [done|].
  case_bool_decide as Hy.
  - injection Hrm as <-. subst y. exists [], l. split_and!; [done..|].
    apply not_elem_of_nil.
  - destruct (Py.list_remove x l) as [k|] eqn:Hk; [|done].
    injection Hrm as <-.
    destruct (IH k eq_refl) as (l1 & l2 & -> & -> & Hl1).
    exists (y :: l1), l2. split_and!; [done..|].
    apply not_elem_of_cons. split; [congruence|done].
Qed.

Lemma list_remove_elem_of (x : Z) (l : list Z) :
  x ∈ l → is_Some (Py.list_remove x l).
Proof.
  induction l as [|y l IH]; [by intros ?%elem_of_nil|].
  intros Hin. simpl. case_bool_decide as Hy; [by eexists|].
  apply elem_of_cons in Hin as [->|Hin]; [done|].
  destruct (IH Hin) as [k ->]. by eexists.
Qed.

(** Removing the number appended last gives back the list, when the number
    was not in it. *)
Lemma list_remove_snoc (x : Z) (l : list Z) :
  x ∉ l → Py.list_remove x (l ++ [x]) = Some l.
Proof.
  induction l as [|y l IH]; intros Hx; simpl.
  - by rewrite bool_decide_eq_true_2.
  - apply not_elem_of_cons in Hx as [Hne Hx].
    rewrite bool_decide_eq_false_2 by congruence. by rewrite IH.
Qed.

Lemma list_remove_Permutation (x : Z) (l l' : list Z) :
  Py.list_remove x l = Some l' → l ≡ₚ x :: l'.
Proof.
  intros (l1 & l2 & -> & -> & _)%list_remove_Some.
  by rewrite Permutation_middle.
Qed.

Lemma list_remove_length (x : Z) (l l' : list Z) :
  Py.list_remove x l = Some l' → length l = S (length l').
Proof. intros Hrm%list_remove_Permutation. by rewrite Hrm. Qed.

Lemma list_remove_sublist (x : Z) (l l' : list Z) :
  Py.list_remove x l = Some l' → l' `sublist_of` l.
Proof.
  intros (l1 & l2 & -> & -> & _)%list_remove_Some.
  apply sublist_app; [done|]. by apply sublist_cons.
Qed.

Lemma list_remove_NoDup (x : Z) (l l' : list Z) :
  NoDup l → Py.list_remove x l = Some l' → NoDup l' ∧ x ∉ l'.
Proof.
  intros Hnodup Hrm%list_remove_Permutation.
  rewrite Hrm in Hnodup. apply NoDup_cons in Hnodup. tauto.
Qed.

Lemma list_remove_elem_of_other (x y : Z) (l l' : list Z) :
  Py.list_remove x l = Some l' → y ∈ l → y ≠ x → y ∈ l'.
Proof.
  intros Hrm%list_remove_Permutation Hy Hne.
  rewrite Hrm in Hy. apply elem_of_cons in Hy as [->|Hy]; done.
Qed.

(** ** The greedy searches: what a call returns *)

(** Taking [number] out of the list and adding it to a solution of the rest
    gives a solution of the list. *)
Lemma solves_cons (numbers new_nums : list Z) (roll number : Z) (r : list Z) :
  NoDup numbers → Py.list_remove number numbers = Some new_nums →
  solves new_nums (roll - number) r → solves numbers roll (number :: r).
Proof.
  intros Hnodup Hrm (Hr & Hsub & Hsum).
  destruct (list_remove_NoDup _ _ _ Hnodup Hrm) as [_ Hnew].
  pose proof (list_remove_Permutation _ _ _ Hrm) as Hperm.
  split_and!.
  - apply NoDup_cons. split; [|done]. intros Hin. by apply Hnew, Hsub.
  - intros y. rewrite Hperm, !elem_of_cons. intros [->|Hy]; auto.
  - rewrite sum_cons. lia.
Qed.

(** A solution that holds [number] leaves a solution of the rest. *)
Lemma solves_without (numbers new_nums : list Z) (roll number : Z) (s : list Z) :
  Py.list_remove number numbers = Some new_nums →
  solves numbers roll s → number ∈ s →
  ∃ s', solves new_nums (roll - number) s'.
Proof.
  intros Hrm (Hs & Hsub & Hsum) [s' Hperm]%elem_of_Permutation.
  exists s'. rewrite Hperm in Hs. apply NoDup_cons in Hs as [Hnotin Hs'].
  split_and!; [done| |].
  - intros y Hy. apply (list_remove_elem_of_other number y numbers); [done| |].
    + apply Hsub. rewrite Hperm. by right.
    + intros ->. done.
  - rewrite (sum_Permutation _ _ Hperm), sum_cons in Hsum. lia.
Qed.

Lemma fresh_for_snoc (answer numbers new_nums : list Z) (number : Z) :
  NoDup numbers → Py.list_remove number numbers = Some new_nums →
  fresh_for answer numbers → fresh_for (answer ++ [number]) new_nums.
Proof.
  intros Hnodup Hrm Hfresh x.
  destruct (list_remove_NoDup _ _ _ Hnodup Hrm) as [_ Hnew].
  intros [Hx| ->%list_elem_of_singleton]%elem_of_app; [|done].
  intros Hin. apply (Hfresh x Hx).
  eapply elem_of_sublist; [exact Hin|]. by eapply list_remove_sublist.
Qed.

Section greedy_loop_results.
Variable self_call : list Z → Z → list Z → res (bool * list Z).
Variables (numbers : list Z) (roll : Z).
Hypothesis numbers_NoDup : NoDup numbers.
Hypothesis self_call_result :
  ∀ new_nums roll' answer,
    NoDup new_nums → fresh_for answer new_nums →
    length numbers = S (length new_nums) →
    greedy_result new_nums roll' answer (self_call new_nums roll' answer).

(** One pass of either loop for a [number] that is not too large: the
    recursive call either completes the answer or leaves it as it was. *)
Lemma greedy_pass (number : Z) (answer : list Z) :
  number ∈ numbers → fresh_for answer numbers →
  ∃ new_nums,
    Py.list_remove number numbers = Some new_nums
    ∧ ((∃ r, self_call new_nums (roll - number) (answer ++ [number])
              = Done (true, answer ++ number :: r)
            ∧ solves new_nums (roll - number) r)
       ∨ (self_call new_nums (roll - number) (answer ++ [number])
            = Done (false, answer ++ [number])
          ∧ Py.list_remove number (answer ++ [number]) = Some answer)).
Proof.
  intros Hin Hfresh.
  destruct (list_remove_elem_of number numbers Hin) as [new_nums Hrm].
  exists new_nums. split; [done|].
  destruct (list_remove_NoDup _ _ _ numbers_NoDup Hrm) as [Hnew _].
  destruct (self_call_result new_nums (roll - number) (answer ++ [number]))
    as (found & answer' & Hcall & Hpost).
  { done. }
  { by apply (fresh_for_snoc answer numbers new_nums number). }
  { by apply (list_remove_length number). }
  destruct found.
  - left. destruct Hpost as (r & -> & Hr). exists r.
    by rewrite <-app_assoc in Hcall.
  - right. subst answer'. split; [done|].
    apply list_remove_snoc. intros Hx. by apply (Hfresh number).
Qed.

Lemma LowestFirst_for_result (todo : list Z) :
  ∀ answer, todo ⊆ numbers → fresh_for answer numbers →
    greedy_result numbers roll answer
      (LowestFirst_for self_call numbers roll todo answer).
Proof.
  induction todo as [|number todo IH]; intros answer Htodo Hfresh; simpl.
  { by exists false, answer. }
  case_bool_decide; [by exists false, answer|].
  destruct (greedy_pass number answer) as (new_nums & Hrm & Hpass);
    [apply Htodo; by left|done|].
  rewrite Hrm. simpl. destruct Hpass as [(r & -> & Hr)|[-> Hback]]; simpl.
  - exists true, (answer ++ number :: r). split; [done|].
    exists (number :: r). split; [done|].
    by apply (solves_cons numbers new_nums).
  - rewrite Hback. simpl.
    apply IH; [|done]. intros x Hx. apply Htodo. by right.
Qed.

Lemma HighestFirst_for_result (todo : list Z) :
  ∀ answer, todo ⊆ numbers → fresh_for answer numbers →
    greedy_result numbers roll answer
      (HighestFirst_for self_call numbers roll todo answer).
Proof.
  induction todo as [|number todo IH]; intros answer Htodo Hfresh; simpl.
  { by exists false, answer. }
  assert (todo ⊆ numbers) by (intros x Hx; apply Htodo; by right).
  case_bool_decide; [by apply IH|].
  destruct (greedy_pass number answer) as (new_nums & Hrm & Hpass);
    [apply Htodo; by left|done|].
  rewrite Hrm. simpl. destruct Hpass as [(r & -> & Hr)|[-> Hback]]; simpl.
  - exists true, (answer ++ number :: r). split; [done|].
    exists (number :: r). split; [done|].
    by apply (solves_cons numbers new_nums).
  - rewrite Hback. simpl. by apply IH.
Qed.

End greedy_loop_results.

(** ** [sorted] *)

Lemma insert_sorted_Permutation {A} (key : A → Z) (reverse : bool) (x : A)
    (l : list A) :
  Py.insert_sorted key reverse x l ≡ₚ x :: l.
Proof.
  induction l as [|y l IH]; simpl; [done|].
  destruct (if reverse then _ else _); [|done].
  rewrite IH. apply Permutation_swap.
Qed.

Lemma sorted_Permutation {A} (key : A → Z) (reverse : bool) (l : list A) :
  Py.sorted key reverse l ≡ₚ l.
Proof.
  induction l as [|x l IH]; simpl; [done|].
  fold (Py.sorted key reverse l).
  by rewrite insert_sorted_Permutation, IH.
Qed.

Lemma solves_Permutation (numbers numbers' : list Z) (roll : Z) (s : list Z) :
  numbers' ≡ₚ numbers → solves numbers' roll s → solves numbers roll s.
Proof.
  intros Hperm (Hs & Hsub & Hsum). split_and!; [done| |done].
  intros x Hx. rewrite <-Hperm. by apply Hsub.
Qed.

Lemma greedy_result_Permutation (numbers numbers' : list Z) roll answer out :
  numbers' ≡ₚ numbers →
  greedy_result numbers' roll answer out → greedy_result numbers roll answer out.
Proof.
  intros Hperm (found & answer' & -> & Hpost).
  exists found, answer'. split; [done|].
  destruct found; [|done]. destruct Hpost as (r & -> & Hr).
  exists r. split; [done|]. by eapply solves_Permutation.
Qed.

Lemma solves_nil (numbers : list Z) : solves numbers 0 [].
Proof. split_and!; [constructor|by intros x ?%elem_of_nil|done]. Qed.

(** ** The greedy searches: every call returns *)

Lemma LowestFirst_result (fuel : nat) :
  ∀ numbers roll answer,
    NoDup numbers → fresh_for answer numbers → (length numbers < fuel)%nat →
    greedy_result numbers roll answer
      (LowestFirst_choose_numbers_in fuel numbers roll answer).
Proof.
  induction fuel as [|fuel IH]; intros numbers roll answer Hnodup Hfresh Hlen;
    [lia|].
  simpl. case_bool_decide as Hroll.
  - exists true, answer. split; [done|]. exists [].
    rewrite app_nil_r. subst roll. split; [done|apply solves_nil].
  - apply LowestFirst_for_result; [done| |done|done].
    intros new_nums roll' answer' ? ? Hshorter. apply IH; [done|done|lia].
Qed.

Lemma HighestFirst_result (fuel : nat) :
  ∀ numbers roll answer,
    NoDup numbers → fresh_for answer numbers → (length numbers < fuel)%nat →
    greedy_result numbers roll answer
      (HighestFirst_choose_numbers_in fuel numbers roll answer).
Proof.
  induction fuel as [|fuel IH]; intros numbers roll answer Hnodup Hfresh Hlen;
    [lia|].
  simpl. case_bool_decide as Hroll.
  - exists true, answer. split; [done|]. exists [].
    rewrite app_nil_r. subst roll. split; [done|apply solves_nil].
  - pose proof (sorted_Permutation id true numbers) as Hperm.
    apply (greedy_result_Permutation numbers (Py.sorted id true numbers));
      [done|].
    apply HighestFirst_for_result; [by rewrite Hperm| |done|].
    + intros new_nums roll' answer' ? ? Hshorter. apply IH; [done|done|].
      rewrite Hperm in Hshorter. lia.
    + intros x Hx. rewrite Hperm. by apply Hfresh.
Qed.

(** The budget [choose_numbers] runs on is enough, whatever the list and the
    answer before the call: the search never stops for lack of it. *)
Lemma LowestFirst_for_fuel_enough self_call (numbers : list Z) roll :
  (∀ new_nums roll' answer,
      length numbers = S (length new_nums) →
      self_call new_nums roll' answer ≠ OutOfFuel) →
  ∀ todo answer, LowestFirst_for self_call numbers roll todo answer ≠ OutOfFuel.
Proof.
  intros Hself. induction todo as [|number todo IH]; intros answer; simpl; [done|].
  case_bool_decide; [done|].
  destruct (Py.list_remove number numbers) as [new_nums|] eqn:Hrm; [|done].
  simpl. apply list_remove_length in Hrm.
  pose proof (Hself new_nums (roll - number) (answer ++ [number]) Hrm).
  destruct (self_call _ _ _) as [[[] answer']| |]; simpl; [done| |done|done].
  destruct (Py.list_remove number answer'); simpl; [apply IH|done].
Qed.

Lemma HighestFirst_for_fuel_enough self_call (numbers : list Z) roll :
  (∀ new_nums roll' answer,
      length numbers = S (length new_nums) →
      self_call new_nums roll' answer ≠ OutOfFuel) →
  ∀ todo answer, HighestFirst_for self_call numbers roll todo answer ≠ OutOfFuel.
Proof.
  intros Hself. induction todo as [|number todo IH]; intros answer; simpl; [done|].
  case_bool_decide; [apply IH|].
  destruct (Py.list_remove number numbers) as [new_nums|] eqn:Hrm; [|done].
  simpl. apply list_remove_length in Hrm.
  pose proof (Hself new_nums (roll - number) (answer ++ [number]) Hrm).
  destruct (self_call _ _ _) as [[[] answer']| |]; simpl; [done| |done|done].
  destruct (Py.list_remove number answer'); simpl; [apply IH|done].
Qed.

Lemma LowestFirst_fuel_enough (numbers : list Z) (roll : Z) (answer : list Z) :
  LowestFirst_choose_numbers numbers roll answer ≠ OutOfFuel.
Proof.
  unfold LowestFirst_choose_numbers.
  assert (∀ fuel numbers roll answer, (length numbers < fuel)%nat →
            LowestFirst_choose_numbers_in fuel numbers roll answer ≠ OutOfFuel)
    as Hall; [|apply Hall; lia].
  clear. induction fuel as [|fuel IH]; intros numbers roll answer Hlen; [lia|].
  simpl. case_bool_decide; [done|].
  apply LowestFirst_for_fuel_enough. intros. apply IH. lia.
Qed.

Lemma HighestFirst_fuel_enough (numbers : list Z) (roll : Z) (answer : list Z) :
  HighestFirst_choose_numbers numbers roll answer ≠ OutOfFuel.
Proof.
  unfold HighestFirst_choose_numbers.
  assert (∀ fuel numbers roll answer, (length numbers < fuel)%nat →
            HighestFirst_choose_numbers_in fuel numbers roll answer ≠ OutOfFuel)
    as Hall; [|apply Hall; lia].
  clear. induction fuel as [|fuel IH]; intros numbers roll answer Hlen; [lia|].
  simpl. case_bool_decide; [done|].
  apply HighestFirst_for_fuel_enough. intros new_nums ? ? Hshorter. apply IH.
  rewrite (sorted_Permutation id true numbers) in Hshorter. lia.
Qed.

(** ** The greedy searches: a failed search means there is no solution *)

Lemma ascending_NoDup (l : list Z) : ascending l → NoDup l.
Proof.
  induction 1 as [|x l Hl IH Hx]; constructor; [|done].
  intros Hin. rewrite Forall_forall in Hx. specialize (Hx x Hin). lia.
Qed.

Lemma ascending_sublist (l' l : list Z) :
  l' `sublist_of` l → ascending l → ascending l'.
Proof.
  induction 1 as [|x l1 l2 Hsub IH|x l1 l2 Hsub IH]; intros Hl; [done| |].
  - apply StronglySorted_inv in Hl as [Hl Hx]. constructor; [by apply IH|].
    rewrite Forall_forall in Hx |- *. intros y Hy. apply Hx.
    by eapply elem_of_sublist.
  - apply StronglySorted_inv in Hl as [Hl _]. by apply IH.
Qed.

(** A solution of a non-zero roll holds a number, and no number larger than
    the roll. *)
Lemma solves_nonempty (numbers : list Z) (roll : Z) (s : list Z) :
  roll ≠ 0 → solves numbers roll s → ∃ m, m ∈ s.
Proof.
  intros Hroll (_ & _ & Hsum). destruct s as [|m s]; [done|].
  exists m. by left.
Qed.

Lemma solves_elem_le (numbers : list Z) (roll : Z) (s : list Z) (m : Z) :
  Forall (λ n, 0 < n) numbers → solves numbers roll s → m ∈ s → m ≤ roll.
Proof.
  intros Hpos (_ & Hsub & <-) Hm. apply sum_elem_le; [|done].
  by eapply positive_subseteq.
Qed.

(** When no number of the list is in any solution, a non-zero roll has no
    solution. *)
Lemma no_solution (numbers : list Z) (roll : Z) :
  roll ≠ 0 →
  (∀ m s, m ∈ numbers → solves numbers roll s → m ∉ s) →
  ∀ s, ¬ solves numbers roll s.
Proof.
  intros Hroll Hnone s Hs.
  destruct (solves_nonempty numbers roll s Hroll Hs) as [m Hm].
  apply (Hnone m s); [|done|done]. destruct Hs as (_ & Hsub & _). by apply Hsub.
Qed.

Section LowestFirst_loop_complete.
Variable self_call : list Z → Z → list Z → res (bool * list Z).
Variables (numbers : list Z) (roll : Z).
Hypothesis numbers_ascending : ascending numbers.
Hypothesis numbers_positive : Forall (λ n, 0 < n) numbers.
Hypothesis roll_nonzero : roll ≠ 0.
Hypothesis self_call_result :
  ∀ new_nums roll' answer,
    NoDup new_nums → fresh_for answer new_nums →
    length numbers = S (length new_nums) →
    greedy_result new_nums roll' answer (self_call new_nums roll' answer).
Hypothesis self_call_complete :
  ∀ new_nums roll' answer found answer',
    ascending new_nums → Forall (λ n, 0 < n) new_nums →
    fresh_for answer new_nums → length numbers = S (length new_nums) →
    self_call new_nums roll' answer = Done (found, answer') →
    if found : bool then ∃ r, answer' = answer ++ r ∧ ascending r
    else ∀ s, ¬ solves new_nums roll' s.

Lemma LowestFirst_for_complete (todo : list Z) :
  ∀ visited answer found answer',
    numbers = visited ++ todo → fresh_for answer numbers →
    (∀ m s, m ∈ visited → solves numbers roll s → m ∉ s) →
    LowestFirst_for self_call numbers roll todo answer = Done (found, answer') →
    if found then ∃ r, answer' = answer ++ r ∧ ascending r
    else ∀ s, ¬ solves numbers roll s.
Proof.
  pose proof (ascending_NoDup _ numbers_ascending) as Hnodup.
  induction todo as [|number todo IH];
    intros visited answer found answer' Hsplit Hfresh Hvisited; simpl.
  { intros [= <- <-]. apply no_solution; [done|].
    intros m s Hm. apply Hvisited. by rewrite Hsplit, app_nil_r in Hm. }
  assert (number ∈ numbers) as Hin by (rewrite Hsplit; set_solver).
  case_bool_decide as Hlarge.
  { intros [= <- <-]. apply no_solution; [done|].
    intros m s Hm Hs Hms. rewrite Hsplit in Hm.
    apply elem_of_app in Hm as [Hm|Hm]; [by apply (Hvisited m s)|].
    pose proof (solves_elem_le numbers roll s m numbers_positive Hs Hms).
    assert (number ≤ m); [|lia].
    apply elem_of_cons in Hm as [->|Hm]; [lia|].
    rewrite Hsplit in numbers_ascending.
    apply StronglySorted_app in numbers_ascending as (_ & _ & Hrest).
    apply StronglySorted_inv in Hrest as [_ Hrest].
    rewrite Forall_forall in Hrest. specialize (Hrest m Hm). lia. }
  destruct (greedy_pass self_call numbers roll Hnodup self_call_result
              number answer Hin Hfresh) as (new_nums & Hrm & Hpass).
  rewrite Hrm. simpl.
  assert (ascending new_nums) as Hnew_asc.
  { eapply ascending_sublist; [|exact numbers_ascending].
    by eapply list_remove_sublist. }
  assert (Forall (λ n, 0 < n) new_nums) as Hnew_pos.
  { eapply positive_subseteq; [exact numbers_positive|].
    apply sublist_subseteq. by eapply list_remove_sublist. }
  pose proof (fresh_for_snoc answer numbers new_nums number Hnodup Hrm Hfresh)
    as Hnew_fresh.
  pose proof (list_remove_length _ _ _ Hrm) as Hnew_len.
  destruct Hpass as [(r & Hcall & Hr)|[Hcall Hback]]; rewrite Hcall; simpl.
  - intros [= <- <-].
    pose proof (self_call_complete _ _ _ _ _ Hnew_asc Hnew_pos Hnew_fresh
                  Hnew_len Hcall) as (r' & Heq & Hr'). simpl in Heq.
    rewrite <-app_assoc in Heq. apply app_inv_head in Heq.
    injection Heq as <-.
    exists (number :: r). split; [done|]. constructor; [done|].
    pose proof (solves_cons numbers new_nums roll number r Hnodup Hrm Hr) as Hsol.
    rewrite Forall_forall. intros x Hx.
    assert (x ∈ new_nums) as Hx_new by (destruct Hr as (_ & Hsub & _); auto).
    assert (x ≠ number) as Hne.
    { intros ->. by apply (list_remove_NoDup _ _ _ Hnodup Hrm). }
    assert (x ∈ numbers) as Hx_in.
    { eapply elem_of_sublist; [exact Hx_new|]. by eapply list_remove_sublist. }
    rewrite Hsplit in Hx_in. apply elem_of_app in Hx_in as [Hx_in|Hx_in].
    { exfalso. apply (Hvisited x (number :: r)); [done|done|by right]. }
    apply elem_of_cons in Hx_in as [->|Hx_in]; [done|].
    rewrite Hsplit in numbers_ascending.
    apply StronglySorted_app in numbers_ascending as (_ & _ & Hrest).
    apply StronglySorted_inv in Hrest as [_ Hrest].
    rewrite Forall_forall in Hrest. by apply Hrest.
  - rewrite Hback. simpl.
    pose proof (self_call_complete _ _ _ _ _ Hnew_asc Hnew_pos Hnew_fresh
                  Hnew_len Hcall) as Hnone. simpl in Hnone.
    apply (IH (visited ++ [number])); [by rewrite <-app_assoc|done|].
    intros m s [Hm| ->%list_elem_of_singleton]%elem_of_app Hs;
      [by apply Hvisited|].
    intros Hms.
    destruct (solves_without numbers new_nums roll number s Hrm Hs Hms)
      as [s' Hs'].
    by apply (Hnone s').
Qed.

End LowestFirst_loop_complete.

Section HighestFirst_loop_complete.
Variable self_call : list Z → Z → list Z → res (bool * list Z).
Variables (numbers : list Z) (roll : Z).
Hypothesis numbers_NoDup : NoDup numbers.
Hypothesis numbers_positive : Forall (λ n, 0 < n) numbers.
Hypothesis roll_nonzero : roll ≠ 0.
Hypothesis self_call_result :
  ∀ new_nums roll' answer,
    NoDup new_nums → fresh_for answer new_nums →
    length numbers = S (length new_nums) →
    greedy_result new_nums roll' answer (self_call new_nums roll' answer).
Hypothesis self_call_complete :
  ∀ new_nums roll' answer answer',
    NoDup new_nums → Forall (λ n, 0 < n) new_nums →
    fresh_for answer new_nums → length numbers = S (length new_nums) →
    self_call new_nums roll' answer = Done (false, answer') →
    ∀ s, ¬ solves new_nums roll' s.

Lemma HighestFirst_for_complete (todo : list Z) :
  ∀ visited answer answer',
    numbers = visited ++ todo → fresh_for answer numbers →
    (∀ m s, m ∈ visited → solves numbers roll s → m ∉ s) →
    HighestFirst_for self_call numbers roll todo answer = Done (false, answer') →
    ∀ s, ¬ solves numbers roll s.
Proof.
  induction todo as [|number todo IH];
    intros visited answer answer' Hsplit Hfresh Hvisited; simpl.
  { intros _. apply no_solution; [done|].
    intros m s Hm. apply Hvisited. by rewrite Hsplit, app_nil_r in Hm. }
  assert (number ∈ numbers) as Hin by (rewrite Hsplit; set_solver).
  case_bool_decide as Hlarge.
  { apply (IH (visited ++ [number])); [by rewrite <-app_assoc|done|].
    intros m s [Hm| ->%list_elem_of_singleton]%elem_of_app Hs;
      [by apply Hvisited|].
    intros Hms.
    pose proof (solves_elem_le numbers roll s number numbers_positive Hs Hms).
    lia. }
  destruct (greedy_pass self_call numbers roll numbers_NoDup self_call_result
              number answer Hin Hfresh) as (new_nums & Hrm & Hpass).
  rewrite Hrm. simpl.
  destruct Hpass as [(r & Hcall & Hr)|[Hcall Hback]]; rewrite Hcall; simpl;
    [done|].
  rewrite Hback. simpl.
  assert (∀ s, ¬ solves new_nums (roll - number) s) as Hnone.
  { eapply self_call_complete; [| | | |exact Hcall].
    - by apply (list_remove_NoDup number numbers).
    - eapply positive_subseteq; [exact numbers_positive|].
      apply sublist_subseteq. by eapply list_remove_sublist.
    - by apply (fresh_for_snoc answer numbers new_nums number).
    - by apply (list_remove_length number). }
  apply (IH (visited ++ [number])); [by rewrite <-app_assoc|done|].
  intros m s [Hm| ->%list_elem_of_singleton]%elem_of_app Hs;
    [by apply Hvisited|].
  intros Hms.
  destruct (solves_without numbers new_nums roll number s Hrm Hs Hms)
    as [s' Hs'].
  by apply (Hnone s').
Qed.

End HighestFirst_loop_complete.

Lemma LowestFirst_complete (fuel : nat) :
  ∀ numbers roll answer found answer',
    ascending numbers → Forall (λ n, 0 < n) numbers →
    fresh_for answer numbers → (length numbers < fuel)%nat →
    LowestFirst_choose_numbers_in fuel numbers roll answer
    = Done (found, answer') →
    if found then ∃ r, answer' = answer ++ r ∧ ascending r
    else ∀ s, ¬ solves numbers roll s.
Proof.
  induction fuel as [|fuel IH];
    intros numbers roll answer found answer' Hasc Hpos Hfresh Hlen; [lia|].
  simpl. case_bool_decide as Hroll.
  { intros [= <- <-]. exists []. rewrite app_nil_r. split; [done|constructor]. }
  apply (LowestFirst_for_complete _ numbers roll Hasc Hpos Hroll) with (visited := []);
    [| |done|done|].
  - intros new_nums roll' answer0 ? ? Hshorter.
    apply LowestFirst_result; [done|done|lia].
  - intros new_nums roll' answer0 found0 answer0' ? ? ? Hshorter.
    apply IH; [done|done|done|lia].
  - by intros m s ?%elem_of_nil.
Qed.

Lemma HighestFirst_complete (fuel : nat) :
  ∀ numbers roll answer answer',
    NoDup numbers → Forall (λ n, 0 < n) numbers →
    fresh_for answer numbers → (length numbers < fuel)%nat →
    HighestFirst_choose_numbers_in fuel numbers roll answer
    = Done (false, answer') →
    ∀ s, ¬ solves numbers roll s.
Proof.
  induction fuel as [|fuel IH];
    intros numbers roll answer answer' Hnodup Hpos Hfresh Hlen; [lia|].
  simpl. case_bool_decide as Hroll; [done|].
  pose proof (sorted_Permutation id true numbers) as Hperm.
  intros Hcall s Hs.
  apply (HighestFirst_for_complete
           (HighestFirst_choose_numbers_in fuel) (Py.sorted id true numbers) roll)
    with (todo := Py.sorted id true numbers) (visited := []) (answer := answer)
         (answer' := answer') (s := s).
  - by rewrite Hperm.
  - by rewrite Hperm.
  - done.
  - intros new_nums roll' answer0 ? ? Hshorter.
    apply HighestFirst_result; [done|done|]. rewrite Hperm in Hshorter. lia.
  - intros new_nums roll' answer0 answer0' ? ? ? Hshorter.
    apply IH; [done|done|done|]. rewrite Hperm in Hshorter. lia.
  - done.
  - intros x Hx. rewrite Hperm. by apply Hfresh.
  - by intros m s' ?%elem_of_nil.
  - done.
  - by apply (solves_Permutation (Py.sorted id true numbers) numbers); [symmetry|].
Qed.

(** ** [min], [max], [sorted(...)[0]] and [choice] *)

Lemma foldl_min_spec (l : list nat) (x : nat) :
  foldl Nat.min x l ∈ x :: l ∧ ∀ y, y ∈ x :: l → (foldl Nat.min x l ≤ y)%nat.
Proof.
  revert x. induction l as [|z l IH]; intros x; simpl.
  { split; [by left|]. intros y ->%list_elem_of_singleton. lia. }
  destruct (IH (x `min` z)%nat) as [Hin Hle]. split.
  - apply elem_of_cons in Hin as [->|Hin]; [|by do 2 right].
    destruct (Nat.min_spec x z) as [[_ ->]|[_ ->]]; [by left|right; by left].
  - intros y Hy.
    assert ((x `min` z ≤ y)%nat ∨ y ∈ l) as [Hy'|Hy'].
    { apply elem_of_cons in Hy as [->|Hy]; [left; lia|].
      apply elem_of_cons in Hy as [->|Hy]; [left; lia|by right]. }
    + specialize (Hle (x `min` z)%nat). etrans; [apply Hle; by left|done].
    + apply Hle. by right.
Qed.

Lemma foldl_max_spec (l : list nat) (x : nat) :
  foldl Nat.max x l ∈ x :: l ∧ ∀ y, y ∈ x :: l → (y ≤ foldl Nat.max x l)%nat.
Proof.
  revert x. induction l as [|z l IH]; intros x; simpl.
  { split; [by left|]. intros y ->%list_elem_of_singleton. lia. }
  destruct (IH (x `max` z)%nat) as [Hin Hle]. split.
  - apply elem_of_cons in Hin as [->|Hin]; [|by do 2 right].
    destruct (Nat.max_spec x z) as [[_ ->]|[_ ->]]; [right; by left|by left].
  - intros y Hy.
    assert ((y ≤ x `max` z)%nat ∨ y ∈ l) as [Hy'|Hy'].
    { apply elem_of_cons in Hy as [->|Hy]; [left; lia|].
      apply elem_of_cons in Hy as [->|Hy]; [left; lia|by right]. }
    + specialize (Hle (x `max` z)%nat). etrans; [done|apply Hle; by left].
    + apply Hle. by right.
Qed.

(** The sort puts the keys in non-decreasing order. *)
Lemma insert_sorted_sorted {A} (key : A → Z) (x : A) (l : list A) :
  StronglySorted (λ a b, key a ≤ key b) l →
  StronglySorted (λ a b, key a ≤ key b) (Py.insert_sorted key false x l).
Proof.
  induction 1 as [|y l Hl IH Hy]; simpl; [repeat constructor|].
  case_bool_decide as Hlt.
  - constructor; [done|].
    rewrite insert_sorted_Permutation. constructor; [lia|done].
  - constructor; [by constructor|]. constructor; [lia|].
    eapply Forall_impl; [exact Hy|]. simpl. lia.
Qed.

Lemma sorted_sorted {A} (key : A → Z) (l : list A) :
  StronglySorted (λ a b, key a ≤ key b) (Py.sorted key false l).
Proof.
  induction l as [|x l IH]; simpl; [constructor|].
  by apply insert_sorted_sorted.
Qed.

(** [sorted(l, key=key)[0]] on a list that is not empty: an element of the
    list with the least key. *)
Lemma first_sorted {A} (key : A → Z) (l : list A) :
  l ≠ [] →
  ∃ a, Py.first (Py.sorted key false l) = Done a
       ∧ a ∈ l ∧ ∀ x, x ∈ l → key a ≤ key x.
Proof.
  intros Hne.
  pose proof (sorted_Permutation key false l) as Hperm.
  pose proof (sorted_sorted key l) as Hsorted.
  destruct (Py.sorted key false l) as [|a k] eqn:Hk.
  { apply Permutation_nil_l in Hperm. by subst. }
  exists a. split; [done|]. split; [rewrite <-Hperm; by left|].
  intros x Hx. rewrite <-Hperm in Hx.
  apply StronglySorted_inv in Hsorted as [_ Hall].
  rewrite Forall_forall in Hall.
  apply elem_of_cons in Hx as [->|Hx]; [lia|by apply Hall].
Qed.

(** [choice] on a list that is not empty returns one of its elements. *)
Lemma choice_elem_of {A} (seq : list A) (r : Py.rng) :
  seq ≠ [] → ∃ x, Py.choice seq r = Done (x, Py.advance r) ∧ x ∈ seq.
Proof.
  intros Hne. unfold Py.choice.
  assert (r O `mod` length seq < length seq)%nat as Hlt.
  { apply Nat.mod_upper_bound. by destruct seq. }
  apply lookup_lt_is_Some_2 in Hlt as [x Hx]. exists x. rewrite Hx.
  split; [done|]. by eapply list_elem_of_lookup_2.
Qed.

(** ** The strategies that enumerate: the solution chosen *)

Section SolutionLength_choice.
Variable secondary_strategy : list Z → Z.
Variables (numbers : list Z) (roll : Z) (answer : list Z).

Lemma FewestNumbers_chooses :
  find_all_solutions numbers roll ≠ [] →
  ∃ chosen,
    FewestNumbers_choose_numbers secondary_strategy numbers roll answer
    = Done chosen
    ∧ chosen ∈ find_all_solutions numbers roll
    ∧ (∀ s, s ∈ find_all_solutions numbers roll →
            (length chosen ≤ length s)%nat)
    ∧ (∀ s, s ∈ find_all_solutions numbers roll →
            length s = length chosen →
            secondary_strategy chosen ≤ secondary_strategy s).
Proof.
  intros Hne. unfold FewestNumbers_choose_numbers.
  destruct (find_all_solutions numbers roll) as [|s0 sols] eqn:Hsols; [done|].
  rewrite fmap_cons. simpl.
  destruct (foldl_min_spec (length <$> sols) (length s0)) as [Hin Hle].
  set (shortest := foldl Nat.min (length s0) (length <$> sols)) in *.
  rewrite <-fmap_cons in Hin, Hle.
  apply list_elem_of_fmap in Hin as (s1 & Hs1 & Hs1in).
  destruct (first_sorted secondary_strategy
              (filter (λ s, length s = shortest) (s0 :: sols)))
    as (chosen & -> & Hchosen & Hkey).
  { intros Hnil. assert (s1 ∈ filter (λ s, length s = shortest) (s0 :: sols))
      as Hs1' by (by apply list_elem_of_filter).
    rewrite Hnil in Hs1'. by apply elem_of_nil in Hs1'. }
  apply list_elem_of_filter in Hchosen as [Hlen Hchosen].
  exists chosen. split_and!; [done|done| |].
  - intros s Hs. rewrite Hlen. apply Hle. apply list_elem_of_fmap. eauto.
  - intros s Hs Hslen. apply Hkey. apply list_elem_of_filter. split; [lia|done].
Qed.

Lemma MostNumbers_chooses :
  find_all_solutions numbers roll ≠ [] →
  ∃ chosen,
    MostNumbers_choose_numbers secondary_strategy numbers roll answer
    = Done chosen
    ∧ chosen ∈ find_all_solutions numbers roll
    ∧ (∀ s, s ∈ find_all_solutions numbers roll →
            (length s ≤ length chosen)%nat)
    ∧ (∀ s, s ∈ find_all_solutions numbers roll →
            length s = length chosen →
            secondary_strategy chosen ≤ secondary_strategy s).
Proof.
  intros Hne. unfold MostNumbers_choose_numbers.
  destruct (find_all_solutions numbers roll) as [|s0 sols] eqn:Hsols; [done|].
  rewrite fmap_cons. simpl.
  destruct (foldl_max_spec (length <$> sols) (length s0)) as [Hin Hle].
  set (longest := foldl Nat.max (length s0) (length <$> sols)) in *.
  rewrite <-fmap_cons in Hin, Hle.
  apply list_elem_of_fmap in Hin as (s1 & Hs1 & Hs1in).
  destruct (first_sorted secondary_strategy
              (filter (λ s, length s = longest) (s0 :: sols)))
    as (chosen & -> & Hchosen & Hkey).
  { intros Hnil. assert (s1 ∈ filter (λ s, length s = longest) (s0 :: sols))
      as Hs1' by (by apply list_elem_of_filter).
    rewrite Hnil in Hs1'. by apply elem_of_nil in Hs1'. }
  apply list_elem_of_filter in Hchosen as [Hlen Hchosen].
  exists chosen. split_and!; [done|done| |].
  - intros s Hs. rewrite Hlen. apply Hle. apply list_elem_of_fmap. eauto.
  - intros s Hs Hslen. apply Hkey. apply list_elem_of_filter. split; [lia|done].
Qed.

Lemma SolutionLength_no_solution :
  find_all_solutions numbers roll = [] →
  FewestNumbers_choose_numbers secondary_strategy numbers roll answer
  = Done answer
  ∧ MostNumbers_choose_numbers secondary_strategy numbers roll answer
    = Done answer.
Proof.
  intros Hnil. unfold FewestNumbers_choose_numbers, MostNumbers_choose_numbers.
  by rewrite Hnil.
Qed.

End SolutionLength_choice.

(** ** The greedy searches against the enumeration *)

Lemma no_solution_find_all_solutions (numbers : list Z) (roll : Z) :
  NumberSet numbers → (∀ s, ¬ solves numbers roll s) →
  find_all_solutions numbers roll = [].
Proof.
  intros Hset Hnone.
  destruct (find_all_solutions numbers roll) as [|s sols] eqn:Hsols; [done|].
  exfalso. apply (Hnone s). apply find_all_solutions_solves; [done|].
  rewrite Hsols. by left.
Qed.

(** A list in increasing order whose numbers all occur in another list in
    increasing order is a sublist of it. *)
Lemma ascending_subseteq_sublist (r l : list Z) :
  ascending r → ascending l → r ⊆ l → r `sublist_of` l.
Proof.
  intros Hr Hl Hsub.
  destruct (subset_as_sublist l r) as [Hsl Hperm];
    [by apply ascending_NoDup|by apply ascending_NoDup|done|].
  assert (filter (λ n, n ∈ r) l = r) as <-; [|done].
  apply (StronglySorted_unique_strong Z.lt); [|by eapply ascending_sublist|done|done].
  intros. lia.
Qed.

Lemma fresh_for_nil (numbers : list Z) : fresh_for [] numbers.
Proof. by intros x ?%elem_of_nil. Qed.

Lemma fresh_for_Forall (answer numbers : list Z) :
  Forall (λ x, x ∉ numbers) answer → fresh_for answer numbers.
Proof. intros Hall x. rewrite Forall_forall in Hall. apply Hall. Qed.

(** On a NumberSet in increasing order [LowestFirst] returns, with an
    element of the enumeration as answer, or with the empty answer when the
    enumeration is empty. *)
Lemma LowestFirst_valid (numbers : list Z) (roll : Z) :
  NumberSet numbers → ascending numbers → 0 < roll →
  ∃ found answer,
    LowestFirst_choose_numbers numbers roll [] = Done (found, answer)
    ∧ (answer ≠ [] → answer ∈ find_all_solutions numbers roll)
    ∧ (answer = [] → find_all_solutions numbers roll = []).
Proof.
  intros Hset Hasc Hroll. pose proof Hset as [Hnodup _].
  pose proof (NumberSet_positive _ Hset) as Hpos.
  unfold LowestFirst_choose_numbers.
  destruct (LowestFirst_result (S (length numbers)) numbers roll [] Hnodup
              (fresh_for_nil numbers) (Nat.lt_succ_diag_r _))
    as (found & answer & Hcall & Hpost).
  exists found, answer. split; [done|].
  pose proof (LowestFirst_complete (S (length numbers)) numbers roll [] found
                answer Hasc Hpos (fresh_for_nil numbers)
                (Nat.lt_succ_diag_r _) Hcall) as Hcomplete.
  destruct found.
  - destruct Hpost as (r & -> & Hr). destruct Hcomplete as (r' & Heq & Hr').
    simpl in *. subst r'. split.
    + intros _. apply elem_of_find_all_solutions; [done|].
      destruct Hr as (_ & Hsub & Hsum).
      split; [by apply ascending_subseteq_sublist|done].
    + intros ->. destruct Hr as (_ & _ & Hsum). rewrite sum_nil in Hsum. lia.
  - subst answer. split; [done|]. intros _.
    by apply no_solution_find_all_solutions.
Qed.

(** On any NumberSet [HighestFirst] returns, with the numbers of an element
    of the enumeration as answer (in decreasing order, so in another order
    than the enumeration lists them), or with the empty answer when the
    enumeration is empty. *)
Lemma HighestFirst_valid (numbers : list Z) (roll : Z) :
  NumberSet numbers → 0 < roll →
  ∃ found answer,
    HighestFirst_choose_numbers numbers roll [] = Done (found, answer)
    ∧ (answer ≠ [] → ∃ s, s ∈ find_all_solutions numbers roll ∧ s ≡ₚ answer)
    ∧ (answer = [] → find_all_solutions numbers roll = []).
Proof.
  intros Hset Hroll. pose proof Hset as [Hnodup _].
  pose proof (NumberSet_positive _ Hset) as Hpos.
  unfold HighestFirst_choose_numbers.
  destruct (HighestFirst_result (S (length numbers)) numbers roll [] Hnodup
              (fresh_for_nil numbers) (Nat.lt_succ_diag_r _))
    as (found & answer & Hcall & Hpost).
  exists found, answer. split; [done|].
  destruct found.
  - destruct Hpost as (r & -> & Hr). simpl. split.
    + intros _. by apply solves_find_all_solutions.
    + intros ->. destruct Hr as (_ & _ & Hsum). rewrite sum_nil in Hsum. lia.
  - subst answer. split; [done|]. intros _.
    apply no_solution_find_all_solutions; [done|].
    by eapply (HighestFirst_complete (S (length numbers)) numbers roll []);
      [| |apply fresh_for_nil|apply Nat.lt_succ_diag_r|].
Qed.

(** ** The claims about the strategies *)

(** C3, as amended.  For every NumberSet, every roll above 0 and the empty
    answer before the call: on numbers listed in increasing order (as the
    game loop lists them) [LowestFirst] returns, its answer when not empty
    is an element of the enumeration, and when its answer is empty the
    enumeration is empty; on numbers in any order [HighestFirst] returns,
    its answer when not empty holds the numbers of an element of the
    enumeration, and when its answer is empty the enumeration is empty. *)
Theorem greedy_validity (numbers : list Z) (roll : Z) :
  NumberSet numbers → 0 < roll →
  (ascending numbers →
   ∃ found answer,
     LowestFirst_choose_numbers numbers roll [] = Done (found, answer)
     ∧ (answer ≠ [] → answer ∈ find_all_solutions numbers roll)
     ∧ (answer = [] → find_all_solutions numbers roll = []))
  ∧ (∃ found answer,
       HighestFirst_choose_numbers numbers roll [] = Done (found, answer)
       ∧ (answer ≠ [] →
          ∃ s, s ∈ find_all_solutions numbers roll ∧ s ≡ₚ answer)
       ∧ (answer = [] → find_all_solutions numbers roll = [])).
Proof.
  intros Hset Hroll. split.
  - intros Hasc. by apply LowestFirst_valid.
  - by apply HighestFirst_valid.
Qed.

Lemma greedy_validity_witness :
  (∃ found answer,
     LowestFirst_choose_numbers [1; 2; 3; 4; 5; 6; 7; 8; 9] 12 []
     = Done (found, answer)
     ∧ (answer ≠ [] → answer ∈ find_all_solutions [1; 2; 3; 4; 5; 6; 7; 8; 9] 12)
     ∧ (answer = [] → find_all_solutions [1; 2; 3; 4; 5; 6; 7; 8; 9] 12 = []))
  ∧ (∃ found answer,
       HighestFirst_choose_numbers [1; 2; 3; 4; 5; 6; 7; 8; 9] 12 []
       = Done (found, answer)
       ∧ (answer ≠ [] →
          ∃ s, s ∈ find_all_solutions [1; 2; 3; 4; 5; 6; 7; 8; 9] 12 ∧ s ≡ₚ answer)
       ∧ (answer = [] → find_all_solutions [1; 2; 3; 4; 5; 6; 7; 8; 9] 12 = [])).
Proof.
  destruct (greedy_validity [1; 2; 3; 4; 5; 6; 7; 8; 9] 12) as [Hlowest Hhighest];
    [compute_done|lia|].
  split; [apply Hlowest; compute_done|exact Hhighest].
Defined.

(** C3 as stated fails twice.  On the NumberSet [5, 2], which is not in
    increasing order, and the roll 2, [LowestFirst] meets 5 first, returns
    [False] at once and leaves the answer empty, while the enumeration
    holds [2].  On [1, 2, 3, 4] and the roll 5, [HighestFirst] answers
    [4, 1], which is not an element of the enumeration: that lists the
    same numbers as [1, 4]. *)
Lemma greedy_validity_fails :
  (NumberSet [5; 2]
   ∧ LowestFirst_choose_numbers [5; 2] 2 [] = Done (false, [])
   ∧ find_all_solutions [5; 2] 2 = [[2]])
  ∧ (NumberSet [1; 2; 3; 4]
     ∧ HighestFirst_choose_numbers [1; 2; 3; 4] 5 [] = Done (true, [4; 1])
     ∧ find_all_solutions [1; 2; 3; 4] 5 = [[1; 4]; [2; 3]]
     ∧ [4; 1] ∉ find_all_solutions [1; 2; 3; 4] 5).
Proof.
  split; split_and!;
    [compute_done|reflexivity|reflexivity
    |compute_done|reflexivity|reflexivity|compute_done].
Qed.

(** From the empty answer every policy returns, with the empty answer or
    a solution. *)
Lemma choose_numbers_answer (self : strategy) (numbers : list Z) (roll : Z)
    (r : Py.rng) :
  is_policy self = true → NumberSet numbers →
  ∃ answer r',
    choose_numbers self numbers roll [] r = Done (answer, r')
    ∧ (answer ≠ [] → solves numbers roll answer).
Proof.
  intros Hpolicy Hset. pose proof Hset as [Hnodup _].
  assert (∀ out, greedy_result numbers roll [] out →
            ∃ found answer, out = Done (found, answer)
                            ∧ (answer ≠ [] → solves numbers roll answer))
    as Hgreedy.
  { intros out (found & answer & -> & Hpost). exists found, answer.
    split; [done|]. destruct found; [|done].
    by destruct Hpost as (s & -> & Hs). }
  pose proof (Hgreedy _ (LowestFirst_result (S (length numbers)) numbers roll []
                           Hnodup (fresh_for_nil numbers)
                           (Nat.lt_succ_diag_r _)))
    as (lfound & lanswer & Hlowest & Hlanswer).
  pose proof (Hgreedy _ (HighestFirst_result (S (length numbers)) numbers roll []
                           Hnodup (fresh_for_nil numbers)
                           (Nat.lt_succ_diag_r _)))
    as (hfound & hanswer & Hhighest & Hhanswer).
  fold (LowestFirst_choose_numbers numbers roll []) in Hlowest.
  fold (HighestFirst_choose_numbers numbers roll []) in Hhighest.
  assert (roll ∈ numbers → solves numbers roll [roll]) as Hexact.
  { intros Hin. split_and!; [apply NoDup_singleton| |].
    - by intros x ->%list_elem_of_singleton.
    - rewrite sum_cons, sum_nil. lia. }
  assert (∀ s, s ∈ find_all_solutions numbers roll → solves numbers roll s)
    as Hsols by (intros; by apply find_all_solutions_solves).
  destruct self as [| | | | | |sec|sec|sec]; try done; simpl.
  - rewrite Hlowest. simpl. by eexists _, _.
  - rewrite Hhighest. simpl. by eexists _, _.
  - unfold ExactThenLowest_choose_numbers, ExactThen_choose_numbers.
    case_bool_decide; simpl; [by eauto|].
    rewrite Hlowest. simpl. by eexists _, _.
  - unfold ExactThenHighest_choose_numbers, ExactThen_choose_numbers.
    case_bool_decide; simpl; [by eauto|].
    rewrite Hhighest. simpl. by eexists _, _.
  - unfold Random_choose_numbers.
    destruct (find_all_solutions numbers roll) as [|s0 sols] eqn:Hfound;
      [by eexists _, _|].
    destruct (choice_elem_of (s0 :: sols) r) as (x & -> & Hx); [done|].
    eexists _, _. split; [done|]. intros _. by apply Hsols.
  - destruct (decide (find_all_solutions numbers roll = [])) as [Hnil|Hne].
    + destruct (SolutionLength_no_solution sec numbers roll [] Hnil) as [-> _].
      simpl. by eexists _, _.
    + destruct (FewestNumbers_chooses sec numbers roll [] Hne)
        as (chosen & -> & Hchosen & _).
      simpl. eexists _, _. split; [done|]. intros _. by apply Hsols.
  - destruct (decide (find_all_solutions numbers roll = [])) as [Hnil|Hne].
    + destruct (SolutionLength_no_solution sec numbers roll [] Hnil) as [_ ->].
      simpl. by eexists _, _.
    + destruct (MostNumbers_chooses sec numbers roll [] Hne)
        as (chosen & -> & Hchosen & _).
      simpl. eexists _, _. split; [done|]. intros _. by apply Hsols.
Qed.

(** C4. The answer of a policy: for each of the seven classes that define
    [choose_numbers], every NumberSet and every roll, a call that starts
    from the empty answer returns, and an answer that is not empty is a
    subset of [numbers] without repetition that sums to the roll. *)
Theorem policy_answer_invariant (self : strategy) (numbers : list Z) (roll : Z)
    (r : Py.rng) :
  is_policy self = true → NumberSet numbers →
  ∃ answer r',
    choose_numbers self numbers roll [] r = Done (answer, r')
    ∧ (answer ≠ [] → NoDup answer ∧ answer ⊆ numbers ∧ Py.sum answer = roll).
Proof. apply choose_numbers_answer. Qed.

Lemma policy_answer_invariant_witness :
  ∃ answer r',
    choose_numbers (MostNumbers Py.min_number) [1; 2; 3; 4; 5; 6; 7; 8; 9] 6 []
      (λ _, O)
    = Done (answer, r')
    ∧ (answer ≠ [] →
       NoDup answer ∧ answer ⊆ [1; 2; 3; 4; 5; 6; 7; 8; 9] ∧ Py.sum answer = 6).
Proof.
  apply (policy_answer_invariant (MostNumbers Py.min_number)
           [1; 2; 3; 4; 5; 6; 7; 8; 9] 6 (λ _, O)); [reflexivity|compute_done].
Defined.

(** C5. The exact match: when the roll is one of the numbers and the answer
    is empty before the call, [ExactThenLowest] and [ExactThenHighest] set
    the answer to the roll alone, whatever the method they inherit would do
    (it is not called); on {2, 5, 9} and the roll 5, [ExactThenLowest]
    answers {5}. *)
Theorem exact_short_circuit (numbers : list Z) (roll : Z) :
  roll ∈ numbers →
  (∀ super_choose_numbers,
      ExactThen_choose_numbers super_choose_numbers numbers roll []
      = Done [roll])
  ∧ ExactThenLowest_choose_numbers numbers roll [] = Done [roll]
  ∧ ExactThenHighest_choose_numbers numbers roll [] = Done [roll]
  ∧ ExactThenLowest_choose_numbers [2; 5; 9] 5 [] = Done [5].
Proof.
  intros Hin.
  assert (∀ super_choose_numbers,
            ExactThen_choose_numbers super_choose_numbers numbers roll []
            = Done [roll]) as Hall.
  { intros super. unfold ExactThen_choose_numbers.
    by rewrite bool_decide_eq_true_2. }
  split_and!; [done|apply Hall|apply Hall|reflexivity].
Qed.

Lemma exact_short_circuit_witness :
  (∀ super_choose_numbers,
      ExactThen_choose_numbers super_choose_numbers [2; 5; 9] 5 [] = Done [5])
  ∧ ExactThenLowest_choose_numbers [2; 5; 9] 5 [] = Done [5]
  ∧ ExactThenHighest_choose_numbers [2; 5; 9] 5 [] = Done [5]
  ∧ ExactThenLowest_choose_numbers [2; 5; 9] 5 [] = Done [5].
Proof. apply (exact_short_circuit [2; 5; 9] 5). compute_done. Defined.

(** C6. The solutions of extremal length: when the enumeration is not
    empty, [FewestNumbers] sets the answer to a solution no longer than any
    solution found, [MostNumbers] to one no shorter, and in both the
    [secondary_strategy] value of the answer is the least among the
    solutions of that length; when the enumeration is empty both leave the
    answer as it was. *)
Theorem SolutionLength_extremal (secondary_strategy : list Z → Z)
    (numbers : list Z) (roll : Z) (answer : list Z) :
  (find_all_solutions numbers roll ≠ [] →
   (∃ chosen,
       FewestNumbers_choose_numbers secondary_strategy numbers roll answer
       = Done chosen
       ∧ chosen ∈ find_all_solutions numbers roll
       ∧ (∀ s, s ∈ find_all_solutions numbers roll →
               (length chosen ≤ length s)%nat)
       ∧ (∀ s, s ∈ find_all_solutions numbers roll →
               length s = length chosen →
               secondary_strategy chosen ≤ secondary_strategy s))
   ∧ (∃ chosen,
         MostNumbers_choose_numbers secondary_strategy numbers roll answer
         = Done chosen
         ∧ chosen ∈ find_all_solutions numbers roll
         ∧ (∀ s, s ∈ find_all_solutions numbers roll →
                 (length s ≤ length chosen)%nat)
         ∧ (∀ s, s ∈ find_all_solutions numbers roll →
                 length s = length chosen →
                 secondary_strategy chosen ≤ secondary_strategy s)))
  ∧ (find_all_solutions numbers roll = [] →
     FewestNumbers_choose_numbers secondary_strategy numbers roll answer
     = Done answer
     ∧ MostNumbers_choose_numbers secondary_strategy numbers roll answer
       = Done answer).
Proof.
  split.
  - intros Hne. split;
      [by apply FewestNumbers_chooses|by apply MostNumbers_chooses].
  - apply SolutionLength_no_solution.
Qed.

(** The example of the specification: on {1, 2, 3, 4, 5} and the roll 6 the
    solutions are {1, 2, 3}, {1, 5} and {2, 4}. *)
Lemma SolutionLength_example :
  find_all_solutions [1; 2; 3; 4; 5] 6 = [[1; 2; 3]; [1; 5]; [2; 4]]
  ∧ FewestNumbers_choose_numbers Py.min_number [1; 2; 3; 4; 5] 6 []
    = Done [1; 5]
  ∧ FewestNumbers_choose_numbers Py.neg_max_number [1; 2; 3; 4; 5] 6 []
    = Done [1; 5]
  ∧ MostNumbers_choose_numbers Py.min_number [1; 2; 3; 4; 5] 6 []
    = Done [1; 2; 3].
Proof. split_and!; reflexivity. Qed.

(** C8. The abstract classes: [choose_numbers] of [Strategy] and of
    [SolutionLength] raises [NotImplementedError], whatever the numbers, the
    roll and the answer, and so returns no solution. *)
Theorem abstract_choose_numbers_raises (secondary_strategy : list Z → Z)
    (numbers : list Z) (roll : Z) (answer : list Z) (r : Py.rng) :
  choose_numbers Strategy numbers roll answer r = Raised NotImplementedError
  ∧ choose_numbers (SolutionLength secondary_strategy) numbers roll answer r
    = Raised NotImplementedError.
Proof. split; reflexivity. Qed.

(** C9, as amended.  When no number of the NumberSet is in the answer yet
    (the empty answer the game loop resets it to; the answer at every
    recursive call), [LowestFirst] and [HighestFirst] return, and when they
    return [False] the answer is the one before the call. *)
Theorem greedy_failure_restores_answer (numbers : list Z) (roll : Z)
    (answer : list Z) :
  NumberSet numbers → fresh_for answer numbers →
  (∃ found answer',
      LowestFirst_choose_numbers numbers roll answer = Done (found, answer')
      ∧ (found = false → answer' = answer))
  ∧ (∃ found answer',
        HighestFirst_choose_numbers numbers roll answer = Done (found, answer')
        ∧ (found = false → answer' = answer)).
Proof.
  intros [Hnodup _] Hfresh. split.
  - destruct (LowestFirst_result (S (length numbers)) numbers roll answer
                Hnodup Hfresh (Nat.lt_succ_diag_r _))
      as (found & answer' & Hcall & Hpost).
    exists found, answer'. split; [done|]. by intros ->.
  - destruct (HighestFirst_result (S (length numbers)) numbers roll answer
                Hnodup Hfresh (Nat.lt_succ_diag_r _))
      as (found & answer' & Hcall & Hpost).
    exists found, answer'. split; [done|]. by intros ->.
Qed.

Lemma greedy_failure_restores_answer_witness :
  (∃ found answer',
      LowestFirst_choose_numbers [1; 2; 4] 8 [9; 3] = Done (found, answer')
      ∧ (found = false → answer' = [9; 3]))
  ∧ (∃ found answer',
        HighestFirst_choose_numbers [1; 2; 4] 8 [9; 3] = Done (found, answer')
        ∧ (found = false → answer' = [9; 3])).
Proof.
  apply (greedy_failure_restores_answer [1; 2; 4] 8 [9; 3]); [compute_done|].
  apply fresh_for_Forall. compute_done.
Defined.

(** C9 as stated fails: with 3 already in the answer, before another
    number, a failed search on the NumberSet {3} appends 3, removes the
    first 3 and so returns [False] with the answer reordered. *)
Lemma greedy_failure_reorders_answer :
  NumberSet [3]
  ∧ LowestFirst_choose_numbers [3] 4 [3; 5] = Done (false, [5; 3])
  ∧ HighestFirst_choose_numbers [3] 4 [3; 5] = Done (false, [5; 3])
  ∧ [5; 3] ≠ [3; 5].
Proof. split_and!; [compute_done|reflexivity|reflexivity|done]. Qed.

(** ** The game loop *)

Lemma list_difference_cons_notin (l k : list Z) (x : Z) :
  x ∉ l → list_difference l (x :: k) = list_difference l k.
Proof.
  induction l as [|y l IH]; intros Hx; simpl; [done|].
  apply not_elem_of_cons in Hx as [Hne Hx]. rewrite (IH Hx).
  destruct (decide_rel elem_of y (x :: k)) as [Hy|Hy];
    destruct (decide_rel elem_of y k) as [Hy'|Hy']; try done.
  - apply elem_of_cons in Hy as [->|Hy]; done.
  - exfalso. apply Hy. by right.
Qed.

Lemma list_remove_difference (x : Z) (l l' k : list Z) :
  NoDup l → Py.list_remove x l = Some l' →
  list_difference l (x :: k) = list_difference l' k.
Proof.
  revert l'. induction l as [|y l IH]; intros l' Hnodup Hrm; simpl in *; [done|].
  apply NoDup_cons in Hnodup as [Hy Hnodup].
  case_bool_decide as Hyx.
  - injection Hrm as <-. subst y.
    destruct (decide_rel elem_of x (x :: k)) as [_|Hx];
      [by apply list_difference_cons_notin|].
    exfalso. apply Hx. by left.
  - destruct (Py.list_remove x l) as [t|] eqn:Ht; [|done].
    injection Hrm as <-. simpl. rewrite (IH t Hnodup eq_refl).
    destruct (decide_rel elem_of y (x :: k)) as [Hin|Hin];
      destruct (decide_rel elem_of y k) as [Hin'|Hin']; try done.
    + apply elem_of_cons in Hin as [->|Hin]; done.
    + exfalso. apply Hin. by right.
Qed.

Lemma list_difference_nil (l : list Z) : list_difference l [] = l.
Proof.
  induction l as [|y l IH]; simpl; [done|].
  destruct (decide_rel elem_of y []) as [Hy|_]; [by apply elem_of_nil in Hy|].
  by rewrite IH.
Qed.

(** Removing a solution number by number leaves the board without them. *)
Lemma remove_each_difference (chosen : list Z) :
  ∀ board, NoDup board → NoDup chosen → chosen ⊆ board →
    remove_each chosen board = Done (list_difference board chosen).
Proof.
  induction chosen as [|number chosen IH]; intros board Hboard Hchosen Hsub.
  { simpl. by rewrite list_difference_nil. }
  apply NoDup_cons in Hchosen as [Hnotin Hchosen]. simpl.
  destruct (list_remove_elem_of number board) as [board' Hrm];
    [apply Hsub; by left|].
  rewrite Hrm. simpl.
  rewrite (list_remove_difference number board board' chosen Hboard Hrm).
  apply IH; [by apply (list_remove_NoDup number board)|done|].
  intros x Hx. apply (list_remove_elem_of_other number x board); [done| |].
  - apply Hsub. by right.
  - by intros ->.
Qed.

Lemma list_difference_length (board chosen : list Z) :
  (length (list_difference board chosen) ≤ length board)%nat.
Proof.
  induction board as [|y board IH]; simpl; [done|].
  destruct (decide_rel elem_of y chosen); simpl; lia.
Qed.

Lemma list_difference_shorter (board chosen : list Z) (x : Z) :
  x ∈ board → x ∈ chosen →
  (length (list_difference board chosen) < length board)%nat.
Proof.
  induction board as [|y board IH]; [by intros ?%elem_of_nil|].
  intros Hx Hchosen. simpl.
  pose proof (list_difference_length board chosen).
  destruct (decide_rel elem_of y chosen) as [Hy|Hy]; simpl; [lia|].
  apply elem_of_cons in Hx as [->|Hx]; [done|].
  specialize (IH Hx Hchosen). lia.
Qed.

Lemma NumberSet_difference (board chosen : list Z) :
  NumberSet board → NumberSet (list_difference board chosen).
Proof.
  intros [Hnodup Hrange].
  split; [by apply NoDup_list_difference|by apply Forall_list_difference].
Qed.

Lemma Game_roll_state (st : state) :
  ∃ roll r',
    Game_roll st = (roll, State (numbers st) (answer st) (global_strategy st) r').
Proof. unfold Game_roll. case_bool_decide; simpl; by eexists _, _. Qed.

(** A turn taken from the empty answer, the module-level name [strategy]
    denoting the strategy of the game. *)
Lemma roll_and_choose_turn (self : strategy) (board : list Z) (r : Py.rng) :
  is_policy self = true → NumberSet board →
  ∃ roll st chosen r',
    Game_roll (State board [] SelfStrategy r) = (roll, st)
    ∧ choose_numbers self board roll [] (random st) = Done (chosen, r')
    ∧ roll_and_choose self (State board [] SelfStrategy r)
      = Done (State board chosen SelfStrategy r')
    ∧ (chosen ≠ [] → solves board roll chosen).
Proof.
  intros Hpolicy Hset.
  destruct (Game_roll_state (State board [] SelfStrategy r)) as (roll & r1 & Hroll).
  simpl in Hroll.
  destruct (choose_numbers_answer self board roll r1 Hpolicy Hset)
    as (chosen & r' & Hchoose & Hchosen).
  exists roll, (State board [] SelfStrategy r1), chosen, r'.
  split_and!; [done|done| |done].
  unfold roll_and_choose. rewrite Hroll. simpl. by rewrite Hchoose.
Qed.

Lemma plays_after_turn (self : strategy) (board : list Z) (r : Py.rng)
    roll st chosen r' remaining :
  Game_roll (State board [] SelfStrategy r) = (roll, st) →
  choose_numbers self board roll [] (random st) = Done (chosen, r') →
  (if decide (chosen = []) then remaining = board
   else plays self (list_difference board chosen) r' remaining) →
  plays self board r remaining.
Proof.
  intros Hroll Hchoose Hafter. destruct (decide (chosen = [])) as [->|Hne].
  - subst remaining. by eapply plays_end.
  - by eapply plays_turn.
Qed.

Lemma truthy_true {A} (l : list A) : l ≠ [] → truthy l = true.
Proof. by destruct l. Qed.

Lemma Game_play_while_enter (fuel : nat) (self : strategy) (st : state) :
  numbers st ≠ [] → answer st ≠ [] →
  Game_play_while (S fuel) self st
  = st' ← Game_play_body self st; Game_play_while fuel self st'.
Proof. intros Hn Ha. simpl. by rewrite !truthy_true. Qed.

Lemma Game_play_while_leave (fuel : nat) (self : strategy) (st : state) :
  answer st = [] → Game_play_while fuel self st = Done st.
Proof. intros Ha. destruct fuel; simpl; by rewrite Ha, andb_false_r. Qed.

(** The [while] loop, entered with the choice of the turn in the answer. *)
Lemma Game_play_while_course (self : strategy) :
  is_policy self = true →
  ∀ fuel board chosen r roll,
    (length board ≤ fuel)%nat → NumberSet board →
    (chosen ≠ [] → solves board roll chosen) →
    ∃ final,
      Game_play_while fuel self (State board chosen SelfStrategy r) = Done final
      ∧ answer final = [] ∧ global_strategy final = SelfStrategy
      ∧ if decide (chosen = []) then numbers final = board
        else plays self (list_difference board chosen) r (numbers final).
Proof.
  intros Hpolicy.
  induction fuel as [|fuel IH]; intros board chosen r roll Hlen Hset Hchosen;
    (destruct (decide (chosen = [])) as [->|Hne];
     [exists (State board [] SelfStrategy r);
      by rewrite Game_play_while_leave|]);
    destruct (Hchosen Hne) as (Hnodup & Hsub & Hsum);
    assert (∃ c, c ∈ chosen) as [c Hc]
      by (destruct chosen as [|c ?]; [done|exists c; by left]);
    assert (c ∈ board) as Hcb by (by apply Hsub);
    assert (board ≠ []) as Hboard by (intros ->; by apply elem_of_nil in Hcb).
  { destruct board; [done|simpl in Hlen; lia]. }
  pose proof Hset as [Hfull _].
  assert (Game_play_body self (State board chosen SelfStrategy r)
          = roll_and_choose self
              (State (list_difference board chosen) [] SelfStrategy r))
    as Hbody.
  { unfold Game_play_body, global_answer, reset_global_answer. simpl.
    by rewrite (remove_each_difference chosen board). }
  destruct (roll_and_choose_turn self (list_difference board chosen) r Hpolicy
              (NumberSet_difference board chosen Hset))
    as (roll' & st' & chosen' & r' & Hroll' & Hchoose' & Hturn & Hchosen').
  destruct (IH (list_difference board chosen) chosen' r' roll')
    as (final & Hwhile & Hanswer & Hglobal & Hafter).
  { pose proof (list_difference_shorter board chosen c Hcb Hc). lia. }
  { by apply NumberSet_difference. }
  { done. }
  exists final. split_and!; [|done|done|].
  - rewrite Game_play_while_enter by done.
    rewrite Hbody, Hturn. simpl. exact Hwhile.
  - by eapply plays_after_turn.
Qed.

(** X17. The contract of the game loop, when the module-level name [strategy]
    denotes the strategy of the game (as it does in the script's main
    block) and that strategy starts with the empty answer: for every policy
    and every random source [play] returns, within a budget of as many
    passes as there are numbers; the game took the course the specification
    tells, turn by turn; the answer is empty again at the end, ready for
    the next game; and the score is the sum of the numbers left. *)
Theorem Game_play_course (self : strategy) (board : list Z) (r : Py.rng)
    (fuel : nat) :
  is_policy self = true → NumberSet board → (length board ≤ fuel)%nat →
  ∃ final,
    Game_play fuel self (State board [] SelfStrategy r) = Done final
    ∧ plays self board r (numbers final)
    ∧ answer final = []
    ∧ Game_score final = Py.sum (numbers final).
Proof.
  intros Hpolicy Hset Hlen.
  destruct (roll_and_choose_turn self board r Hpolicy Hset)
    as (roll & st & chosen & r' & Hroll & Hchoose & Hturn & Hchosen).
  destruct (Game_play_while_course self Hpolicy fuel board chosen r' roll
              Hlen Hset Hchosen)
    as (final & Hwhile & Hanswer & _ & Hafter).
  exists final. split_and!; [|by eapply plays_after_turn|done|done].
  unfold Game_play. rewrite Hturn. simpl. exact Hwhile.
Qed.

Lemma Game_play_course_witness :
  ∃ final,
    Game_play 9 (FewestNumbers Py.neg_max_number) (Game_init [] SelfStrategy (λ n, n))
    = Done final
    ∧ plays (FewestNumbers Py.neg_max_number) [1; 2; 3; 4; 5; 6; 7; 8; 9] (λ n, n)
        (numbers final)
    ∧ answer final = []
    ∧ Game_score final = Py.sum (numbers final).
Proof.
  apply (Game_play_course (FewestNumbers Py.neg_max_number)
           [1; 2; 3; 4; 5; 6; 7; 8; 9] (λ n, n) 9);
    [reflexivity|compute_done|simpl; lia].
Defined.

(** Without a module-level name [strategy], the first turn that chooses
    numbers ends [play] with a [NameError]. *)
Lemma Game_play_unbound (self : strategy) (st st' : state) (fuel : nat) :
  roll_and_choose self st = Done st' →
  global_strategy st' = Unbound → numbers st' ≠ [] → answer st' ≠ [] →
  Game_play (S fuel) self st = Raised NameError.
Proof.
  intros Hturn Hglobal Hnumbers Hanswer. unfold Game_play. rewrite Hturn.
  simpl. destruct (numbers st'), (answer st'); try done. simpl.
  unfold Game_play_body, global_answer. by rewrite Hglobal.
Qed.

(** C7, at an input on which it fails.  A game is made for a [LowestFirst]
    strategy where no module-level name [strategy] is bound (the module is
    imported, not run as a script); both dice show 1.  The strategy answers
    [2] and the loop, which reads [strategy.answer] where it means
    [self.strategy.answer], raises [NameError]: nothing is removed and the
    game does not go on. *)
Theorem Game_play_strategy_unbound (fuel : nat) :
  choose_numbers LowestFirst [1; 2; 3; 4; 5; 6; 7; 8; 9] 2 [] (λ _, O)
  = Done ([2], λ _, O)
  ∧ Game_play (S fuel) LowestFirst (Game_init [] Unbound (λ _, O))
    = Raised NameError.
Proof. split; reflexivity. Qed.

(** When the name denotes another object, the answer of the game's strategy
    is never reset and nothing is removed: the loop does not end (here, not
    within a thousand passes). *)
Lemma Game_play_strategy_other :
  Game_play 1000 LowestFirst (Game_init [] (OtherObject []) (λ _, O))
  = OutOfFuel.
Proof. vm_compute. reflexivity. Qed.

(** With an abstract class as strategy the first call of [choose_numbers]
    ends [play]. *)
Lemma Game_play_abstract (self : strategy) (st : state) (fuel : nat) :
  is_policy self = false →
  Game_play fuel self st = Raised NotImplementedError.
Proof.
  intros Habstract. unfold Game_play, roll_and_choose.
  destruct (Game_roll st) as [roll st'].
  by destruct self.
Qed.

(** ** The greedy searches on any list and any answer *)

Lemma greedy_returns_answer (numbers : list Z) roll (answer answer0 : list Z) out :
  answer0 ≡ₚ answer →
  greedy_returns numbers roll answer0 out → greedy_returns numbers roll answer out.
Proof.
  intros Hperm (found & answer' & -> & Hpost). exists found, answer'.
  split; [done|]. destruct found.
  - destruct Hpost as (r & Hanswer & Hr). exists r. by rewrite <-Hperm.
  - by rewrite <-Hperm.
Qed.

Lemma greedy_returns_numbers (numbers numbers' : list Z) roll answer out :
  numbers' ≡ₚ numbers →
  greedy_returns numbers' roll answer out → greedy_returns numbers roll answer out.
Proof.
  intros Hperm (found & answer' & -> & Hpost). exists found, answer'.
  split; [done|]. destruct found; [|done].
  destruct Hpost as (r & Hanswer & Hr & Hsum). exists r. by rewrite <-Hperm.
Qed.

Section greedy_loops_return.
Variable self_call : list Z → Z → list Z → res (bool * list Z).
Variables (numbers : list Z) (roll : Z).
Hypothesis self_call_returns :
  ∀ new_nums roll' answer,
    length numbers = S (length new_nums) →
    greedy_returns new_nums roll' answer (self_call new_nums roll' answer).

(** One pass of either loop, whatever the answer: the number is found in
    the list and, after a failed recursive call, in the answer. *)
Lemma greedy_pass_returns (number : Z) (answer : list Z) :
  number ∈ numbers →
  ∃ new_nums,
    Py.list_remove number numbers = Some new_nums
    ∧ ((∃ answer' r,
           self_call new_nums (roll - number) (answer ++ [number])
           = Done (true, answer')
           ∧ answer' ≡ₚ answer ++ number :: r
           ∧ number :: r ⊆+ numbers ∧ Py.sum (number :: r) = roll)
       ∨ (∃ answer' answer1,
             self_call new_nums (roll - number) (answer ++ [number])
             = Done (false, answer')
             ∧ Py.list_remove number answer' = Some answer1
             ∧ answer1 ≡ₚ answer)).
Proof.
  intros Hin.
  destruct (list_remove_elem_of number numbers Hin) as [new_nums Hrm].
  exists new_nums. split; [done|].
  pose proof (list_remove_Permutation _ _ _ Hrm) as Hnumbers.
  destruct (self_call_returns new_nums (roll - number) (answer ++ [number])
              (list_remove_length _ _ _ Hrm))
    as (found & answer' & Hcall & Hpost).
  destruct found.
  - left. destruct Hpost as (r & Hanswer & Hr & Hsum). exists answer', r.
    split_and!; [done| | |].
    + by rewrite Hanswer, <-app_assoc.
    + rewrite Hnumbers. by apply submseteq_skip.
    + rewrite sum_cons. lia.
  - right.
    destruct (list_remove_elem_of number answer') as [answer1 Hback].
    { rewrite Hpost. set_solver. }
    exists answer', answer1. split_and!; [done|done|].
    apply list_remove_Permutation in Hback.
    rewrite Hback, <-Permutation_cons_append in Hpost.
    by apply Permutation_cons_inv in Hpost.
Qed.

Lemma LowestFirst_for_returns (todo : list Z) :
  ∀ answer, todo ⊆ numbers →
    greedy_returns numbers roll answer
      (LowestFirst_for self_call numbers roll todo answer).
Proof.
  induction todo as [|number todo IH]; intros answer Htodo; simpl.
  { by exists false, answer. }
  case_bool_decide; [by exists false, answer|].
  destruct (greedy_pass_returns number answer) as (new_nums & Hrm & Hpass);
    [apply Htodo; by left|].
  rewrite Hrm. simpl.
  destruct Hpass as [(answer' & r & -> & Hanswer & Hr & Hsum)
                    |(answer' & answer1 & -> & Hback & Hanswer)]; simpl.
  - exists true, answer'. split; [done|]. by exists (number :: r).
  - rewrite Hback. simpl. apply (greedy_returns_answer _ _ _ answer1); [done|].
    apply IH. intros x Hx. apply Htodo. by right.
Qed.

Lemma HighestFirst_for_returns (todo : list Z) :
  ∀ answer, todo ⊆ numbers →
    greedy_returns numbers roll answer
      (HighestFirst_for self_call numbers roll todo answer).
Proof.
  induction todo as [|number todo IH]; intros answer Htodo; simpl.
  { by exists false, answer. }
  assert (todo ⊆ numbers) by (intros x Hx; apply Htodo; by right).
  case_bool_decide; [by apply IH|].
  destruct (greedy_pass_returns number answer) as (new_nums & Hrm & Hpass);
    [apply Htodo; by left|].
  rewrite Hrm. simpl.
  destruct Hpass as [(answer' & r & -> & Hanswer & Hr & Hsum)
                    |(answer' & answer1 & -> & Hback & Hanswer)]; simpl.
  - exists true, answer'. split; [done|]. by exists (number :: r).
  - rewrite Hback. simpl. apply (greedy_returns_answer _ _ _ answer1); [done|].
    by apply IH.
Qed.

End greedy_loops_return.

Lemma LowestFirst_returns (fuel : nat) :
  ∀ numbers roll answer,
    (length numbers < fuel)%nat →
    greedy_returns numbers roll answer
      (LowestFirst_choose_numbers_in fuel numbers roll answer).
Proof.
  induction fuel as [|fuel IH]; intros numbers roll answer Hlen; [lia|].
  simpl. case_bool_decide as Hroll.
  - exists true, answer. split; [done|]. exists [].
    rewrite app_nil_r. subst roll. split_and!; [done|apply submseteq_nil_l|done].
  - apply LowestFirst_for_returns; [|done].
    intros new_nums roll' answer' Hshorter. apply IH. lia.
Qed.

Lemma HighestFirst_returns (fuel : nat) :
  ∀ numbers roll answer,
    (length numbers < fuel)%nat →
    greedy_returns numbers roll answer
      (HighestFirst_choose_numbers_in fuel numbers roll answer).
Proof.
  induction fuel as [|fuel IH]; intros numbers roll answer Hlen; [lia|].
  simpl. case_bool_decide as Hroll.
  - exists true, answer. split; [done|]. exists [].
    rewrite app_nil_r. subst roll. split_and!; [done|apply submseteq_nil_l|done].
  - pose proof (sorted_Permutation id true numbers) as Hperm.
    apply (greedy_returns_numbers numbers (Py.sorted id true numbers)); [done|].
    apply HighestFirst_for_returns; [|done].
    intros new_nums roll' answer' Hshorter. apply IH.
    rewrite Hperm in Hshorter. lia.
Qed.


(** ** The greedy searches: the number chosen first *)

Section LowestFirst_loop_lowest.
Variable self_call : list Z → Z → list Z → res (bool * list Z).
Variables (numbers : list Z) (roll : Z).
Hypothesis numbers_ascending : ascending numbers.
Hypothesis numbers_positive : Forall (λ n, 0 < n) numbers.
Hypothesis self_call_result :
  ∀ new_nums roll' answer,
    NoDup new_nums → fresh_for answer new_nums →
    length numbers = S (length new_nums) →
    greedy_result new_nums roll' answer (self_call new_nums roll' answer).
Hypothesis self_call_fails :
  ∀ new_nums roll' answer answer',
    ascending new_nums → Forall (λ n, 0 < n) new_nums →
    fresh_for answer new_nums → length numbers = S (length new_nums) →
    self_call new_nums roll' answer = Done (false, answer') →
    ∀ s, ¬ solves new_nums roll' s.

Lemma LowestFirst_for_lowest (todo : list Z) :
  ∀ visited answer answer',
    numbers = visited ++ todo → fresh_for answer numbers →
    (∀ m s, m ∈ visited → solves numbers roll s → m ∉ s) →
    LowestFirst_for self_call numbers roll todo answer = Done (true, answer') →
    ∃ n r, answer' = answer ++ n :: r
           ∧ ∀ s m, solves numbers roll s → m ∈ s → n ≤ m.
Proof.
  pose proof (ascending_NoDup _ numbers_ascending) as Hnodup.
  induction todo as [|number todo IH];
    intros visited answer answer' Hsplit Hfresh Hvisited; simpl; [done|].
  assert (number ∈ numbers) as Hin by (rewrite Hsplit; set_solver).
  case_bool_decide as Hlarge; [done|].
  destruct (greedy_pass self_call numbers roll Hnodup self_call_result
              number answer Hin Hfresh) as (new_nums & Hrm & Hpass).
  rewrite Hrm. simpl.
  destruct Hpass as [(r & Hcall & Hr)|[Hcall Hback]]; rewrite Hcall; simpl.
  - intros [= <-]. exists number, r. split; [done|].
    intros s m Hs Hm.
    assert (m ∈ numbers) as Hm_in by (destruct Hs as (_ & Hsub & _); auto).
    rewrite Hsplit in Hm_in. apply elem_of_app in Hm_in as [Hm_in|Hm_in].
    { by destruct (Hvisited m s Hm_in Hs). }
    apply elem_of_cons in Hm_in as [->|Hm_in]; [done|].
    rewrite Hsplit in numbers_ascending.
    apply StronglySorted_app in numbers_ascending as (_ & _ & Hrest).
    apply StronglySorted_inv in Hrest as [_ Hrest].
    rewrite Forall_forall in Hrest. specialize (Hrest m Hm_in). lia.
  - rewrite Hback. simpl.
    assert (∀ s, ¬ solves new_nums (roll - number) s) as Hnone.
    { eapply self_call_fails; [| | | |exact Hcall].
      - eapply ascending_sublist; [|exact numbers_ascending].
        by eapply list_remove_sublist.
      - eapply positive_subseteq; [exact numbers_positive|].
        apply sublist_subseteq. by eapply list_remove_sublist.
      - by apply (fresh_for_snoc answer numbers new_nums number).
      - by apply (list_remove_length number). }
    apply (IH (visited ++ [number])); [by rewrite <-app_assoc|done|].
    intros m s [Hm| ->%list_elem_of_singleton]%elem_of_app Hs;
      [by apply Hvisited|].
    intros Hms.
    destruct (solves_without numbers new_nums roll number s Hrm Hs Hms)
      as [s' Hs'].
    by apply (Hnone s').
Qed.

End LowestFirst_loop_lowest.



(** [sorted(..., reverse=True)] puts the keys in non-increasing order. *)
Lemma insert_sorted_reverse {A} (key : A → Z) (x : A) (l : list A) :
  StronglySorted (λ a b, key b ≤ key a) l →
  StronglySorted (λ a b, key b ≤ key a) (Py.insert_sorted key true x l).
Proof.
  induction 1 as [|y l Hl IH Hy]; simpl; [repeat constructor|].
  case_bool_decide as Hlt.
  - constructor; [done|].
    rewrite insert_sorted_Permutation. constructor; [lia|done].
  - constructor; [by constructor|]. constructor; [lia|].
    eapply Forall_impl; [exact Hy|]. simpl. lia.
Qed.

Lemma sorted_reverse_descending (l : list Z) :
  NoDup l → descending (Py.sorted id true l).
Proof.
  intros Hnodup.
  assert (StronglySorted (λ a b : Z, id b ≤ id a) (Py.sorted id true l)) as Hle.
  { clear. induction l as [|x l IH]; simpl; [constructor|].
    by apply insert_sorted_reverse. }
  rewrite <-(sorted_Permutation id true l) in Hnodup.
  induction Hle as [|x k Hk IH Hx]; [constructor|].
  apply NoDup_cons in Hnodup as [Hnotin Hnodup].
  constructor; [by apply IH|].
  rewrite Forall_forall in Hx |- *. intros y Hy.
  specialize (Hx y Hy). unfold id in Hx.
  assert (y ≠ x) by (by intros ->). lia.
Qed.

Lemma descending_NoDup (l : list Z) : descending l → NoDup l.
Proof.
  induction 1 as [|x l Hl IH Hx]; constructor; [|done].
  intros Hin. rewrite Forall_forall in Hx. specialize (Hx x Hin). lia.
Qed.

Lemma descending_sublist (l' l : list Z) :
  l' `sublist_of` l → descending l → descending l'.
Proof.
  induction 1 as [|x l1 l2 Hsub IH|x l1 l2 Hsub IH]; intros Hl; [done| |].
  - apply StronglySorted_inv in Hl as [Hl Hx]. constructor; [by apply IH|].
    rewrite Forall_forall in Hx |- *. intros y Hy. apply Hx.
    by eapply elem_of_sublist.
  - apply StronglySorted_inv in Hl as [Hl _]. by apply IH.
Qed.

Section HighestFirst_loop_highest.
Variable self_call : list Z → Z → list Z → res (bool * list Z).
Variables (numbers : list Z) (roll : Z).
Hypothesis numbers_descending : descending numbers.
Hypothesis numbers_positive : Forall (λ n, 0 < n) numbers.
Hypothesis self_call_result :
  ∀ new_nums roll' answer,
    NoDup new_nums → fresh_for answer new_nums →
    length numbers = S (length new_nums) →
    greedy_result new_nums roll' answer (self_call new_nums roll' answer).
Hypothesis self_call_fails :
  ∀ new_nums roll' answer answer',
    NoDup new_nums → Forall (λ n, 0 < n) new_nums →
    fresh_for answer new_nums → length numbers = S (length new_nums) →
    self_call new_nums roll' answer = Done (false, answer') →
    ∀ s, ¬ solves new_nums roll' s.
Hypothesis self_call_descending :
  ∀ new_nums roll' answer answer',
    NoDup new_nums → Forall (λ n, 0 < n) new_nums →
    fresh_for answer new_nums → length numbers = S (length new_nums) →
    self_call new_nums roll' answer = Done (true, answer') →
    ∃ r, answer' = answer ++ r ∧ descending r.

Lemma HighestFirst_for_highest (todo : list Z) :
  ∀ visited answer answer',
    numbers = visited ++ todo → fresh_for answer numbers →
    (∀ m s, m ∈ visited → solves numbers roll s → m ∉ s) →
    HighestFirst_for self_call numbers roll todo answer = Done (true, answer') →
    ∃ n r, answer' = answer ++ n :: r ∧ descending (n :: r)
           ∧ ∀ s m, solves numbers roll s → m ∈ s → m ≤ n.
Proof.
  pose proof (descending_NoDup _ numbers_descending) as Hnodup.
  induction todo as [|number todo IH];
    intros visited answer answer' Hsplit Hfresh Hvisited; simpl; [done|].
  assert (number ∈ numbers) as Hin by (rewrite Hsplit; set_solver).
  assert (∀ m, m ∈ numbers → m ∉ visited → m ≤ number) as Hbelow.
  { intros m Hm Hnotin. rewrite Hsplit in Hm.
    apply elem_of_app in Hm as [Hm|Hm]; [done|].
    apply elem_of_cons in Hm as [->|Hm]; [done|].
    rewrite Hsplit in numbers_descending.
    apply StronglySorted_app in numbers_descending as (_ & _ & Hrest).
    apply StronglySorted_inv in Hrest as [_ Hrest].
    rewrite Forall_forall in Hrest. specialize (Hrest m Hm). lia. }
  case_bool_decide as Hlarge.
  { apply (IH (visited ++ [number])); [by rewrite <-app_assoc|done|].
    intros m s [Hm| ->%list_elem_of_singleton]%elem_of_app Hs;
      [by apply Hvisited|].
    intros Hms.
    pose proof (solves_elem_le numbers roll s number numbers_positive Hs Hms).
    lia. }
  destruct (greedy_pass self_call numbers roll Hnodup self_call_result
              number answer Hin Hfresh) as (new_nums & Hrm & Hpass).
  rewrite Hrm. simpl.
  assert (NoDup new_nums) as Hnew_nodup
    by (by apply (list_remove_NoDup number numbers)).
  assert (Forall (λ n, 0 < n) new_nums) as Hnew_pos.
  { eapply positive_subseteq; [exact numbers_positive|].
    apply sublist_subseteq. by eapply list_remove_sublist. }
  pose proof (fresh_for_snoc answer numbers new_nums number Hnodup Hrm Hfresh)
    as Hnew_fresh.
  pose proof (list_remove_length _ _ _ Hrm) as Hnew_len.
  destruct Hpass as [(r & Hcall & Hr)|[Hcall Hback]]; rewrite Hcall; simpl.
  - intros [= <-]. exists number, r. split; [done|].
    pose proof (solves_cons numbers new_nums roll number r Hnodup Hrm Hr) as Hsol.
    assert (∀ m s, solves numbers roll s → m ∈ s → m ≤ number) as Hhighest.
    { intros m s Hs Hm. apply Hbelow.
      - destruct Hs as (_ & Hsub & _). auto.
      - intros Hv. by destruct (Hvisited m s Hv Hs). }
    split; [|intros s m; apply Hhighest].
    destruct (self_call_descending _ _ _ _ Hnew_nodup Hnew_pos Hnew_fresh
                Hnew_len Hcall) as (r' & Heq & Hr').
    rewrite <-app_assoc in Heq. apply app_inv_head in Heq.
    injection Heq as <-.
    constructor; [done|]. rewrite Forall_forall. intros x Hx.
    assert (x ≤ number) by (apply (Hhighest x (number :: r)); [done|by right]).
    assert (x ≠ number); [|lia].
    intros ->. destruct Hsol as (Hdup & _). apply NoDup_cons in Hdup. tauto.
  - rewrite Hback. simpl.
    pose proof (self_call_fails _ _ _ _ Hnew_nodup Hnew_pos Hnew_fresh
                  Hnew_len Hcall) as Hnone.
    apply (IH (visited ++ [number])); [by rewrite <-app_assoc|done|].
    intros m s [Hm| ->%list_elem_of_singleton]%elem_of_app Hs;
      [by apply Hvisited|].
    intros Hms.
    destruct (solves_without numbers new_nums roll number s Hrm Hs Hms)
      as [s' Hs'].
    by apply (Hnone s').
Qed.

End HighestFirst_loop_highest.

Lemma HighestFirst_highest (fuel : nat) :
  ∀ numbers roll answer answer',
    NoDup numbers → Forall (λ n, 0 < n) numbers →
    fresh_for answer numbers → (length numbers < fuel)%nat →
    HighestFirst_choose_numbers_in fuel numbers roll answer
    = Done (true, answer') →
    ∃ r, answer' = answer ++ r ∧ descending r
         ∧ (roll ≠ 0 →
            ∃ n rest, r = n :: rest
                      ∧ ∀ s m, solves numbers roll s → m ∈ s → m ≤ n).
Proof.
  induction fuel as [|fuel IH];
    intros numbers roll answer answer' Hnodup Hpos Hfresh Hlen; [lia|].
  simpl. case_bool_decide as Hroll.
  { intros [= <-]. exists []. rewrite app_nil_r.
    split_and!; [done|constructor|done]. }
  pose proof (sorted_Permutation id true numbers) as Hperm.
  intros Hcall.
  apply (HighestFirst_for_highest _ (Py.sorted id true numbers) roll)
    with (visited := []) in Hcall.
  - destruct Hcall as (n & r & -> & Hdesc & Hhighest).
    exists (n :: r). split_and!; [done|done|]. intros _. exists n, r.
    split; [done|]. intros s m Hs. apply Hhighest.
    by apply (solves_Permutation (Py.sorted id true numbers) numbers);
      [symmetry|].
  - by apply sorted_reverse_descending.
  - by rewrite Hperm.
  - intros new_nums roll' answer0 ? ? Hshorter.
    apply HighestFirst_result; [done|done|]. rewrite Hperm in Hshorter. lia.
  - intros new_nums roll' answer0 answer0' ? ? ? Hshorter.
    apply HighestFirst_complete; [done|done|done|].
    rewrite Hperm in Hshorter. lia.
  - intros new_nums roll' answer0 answer0' ? ? ? Hshorter Htrue.
    destruct (IH new_nums roll' answer0 answer0') as (r & Hr & Hdesc & _);
      [done|done|done| |done|by exists r].
    rewrite Hperm in Hshorter. lia.
  - done.
  - intros x Hx. rewrite Hperm. by apply Hfresh.
  - by intros m s ?%elem_of_nil.
Qed.



(** ** The dice *)

Lemma randint_range (r : Py.rng) :
  1 ≤ (Py.randint 1 6 r).1 ≤ 6 ∧ (Py.randint 1 6 r).2 = Py.advance r.
Proof.
  unfold Py.randint. split; [|done]. cbn [fst].
  pose proof (Z.mod_pos_bound (Z.of_nat (r O)) (6 - 1 + 1)). lia.
Qed.

Lemma Game_roll_range (st : state) :
  ∃ roll r',
    Game_roll st = (roll, State (numbers st) (answer st) (global_strategy st) r')
    ∧ (numbers st = [1] → 1 ≤ roll ≤ 6 ∧ r' = Py.advance (random st))
    ∧ (numbers st ≠ [1] →
       2 ≤ roll ≤ 12 ∧ r' = Py.advance (Py.advance (random st))).
Proof.
  unfold Game_roll.
  pose proof (randint_range (random st)) as [Hfirst _].
  pose proof (randint_range (Py.advance (random st))) as [Hsecond _].
  unfold Py.randint in *. cbn [fst snd] in *.
  case_bool_decide as Hone; eexists _, _;
    (split; [done|]); split; intros ?; try done; split; [lia|done].
Qed.

(** X4. [Game.roll]: one die, so a roll from 1 to 6 and one draw from the
    random source, when the only number left is 1; two dice, so a roll from
    2 to 12 and two draws, otherwise.  The board and the answer of the
    strategy are left as they are. *)
Theorem Game_roll_bounds (st : state) :
  ∃ roll r',
    Game_roll st = (roll, State (numbers st) (answer st) (global_strategy st) r')
    ∧ (numbers st = [1] → 1 ≤ roll ≤ 6 ∧ r' = Py.advance (random st))
    ∧ (numbers st ≠ [1] →
       2 ≤ roll ≤ 12 ∧ r' = Py.advance (Py.advance (random st))).
Proof. apply Game_roll_range. Qed.

(** ** When a policy declines *)

Lemma find_all_solutions_nonempty (numbers : list Z) (roll : Z) (s : list Z) :
  NumberSet numbers → 0 < roll → s ∈ find_all_solutions numbers roll → s ≠ [].
Proof.
  intros Hset Hroll Hs ->.
  apply find_all_solutions_solves in Hs as (_ & _ & Hsum); [|done].
  rewrite sum_nil in Hsum. lia.
Qed.

Lemma choose_numbers_declines (self : strategy) (numbers : list Z) (roll : Z)
    (r r' : Py.rng) (chosen : list Z) :
  is_policy self = true → NumberSet numbers → ascending numbers → 0 < roll →
  choose_numbers self numbers roll [] r = Done (chosen, r') →
  chosen = [] ↔ find_all_solutions numbers roll = [].
Proof.
  intros Hpolicy Hset Hasc Hroll.
  destruct (LowestFirst_valid numbers roll Hset Hasc Hroll)
    as (lfound & lanswer & Hlowest & Hlin & Hlnone).
  destruct (HighestFirst_valid numbers roll Hset Hroll)
    as (hfound & hanswer & Hhighest & Hhin & Hhnone).
  assert (lanswer = [] ↔ find_all_solutions numbers roll = []) as Hl.
  { split; [done|]. intros Hnil. destruct lanswer as [|n l]; [done|].
    specialize (Hlin ltac:(done)). rewrite Hnil in Hlin.
    by apply elem_of_nil in Hlin. }
  assert (hanswer = [] ↔ find_all_solutions numbers roll = []) as Hh.
  { split; [done|]. intros Hnil. destruct hanswer as [|n l]; [done|].
    destruct (Hhin ltac:(done)) as (s & Hs & _). rewrite Hnil in Hs.
    by apply elem_of_nil in Hs. }
  assert (roll ∈ numbers → find_all_solutions numbers roll ≠ []) as Hexact.
  { intros Hin Hnil.
    destruct (solves_find_all_solutions numbers roll [roll] Hset)
      as (a & Ha & _); [|rewrite Hnil in Ha; by apply elem_of_nil in Ha].
    split_and!; [apply NoDup_singleton| |].
    - by intros x ->%list_elem_of_singleton.
    - rewrite sum_cons, sum_nil. lia. }
  assert (∀ s, s ∈ find_all_solutions numbers roll →
            s = [] ↔ find_all_solutions numbers roll = []) as Hfound.
  { intros s Hs. split.
    - intros ->. by destruct (find_all_solutions_nonempty numbers roll [] Hset Hroll).
    - intros Hnil. rewrite Hnil in Hs. by apply elem_of_nil in Hs. }
  destruct self as [| | | | | |sec|sec|sec]; try done; simpl.
  - rewrite Hlowest. simpl. by intros [= <- <-].
  - rewrite Hhighest. simpl. by intros [= <- <-].
  - unfold ExactThenLowest_choose_numbers, ExactThen_choose_numbers.
    case_bool_decide as Hin; simpl.
    + intros [= <- <-]. split; [done|]. intros Hnil. by destruct (Hexact Hin).
    + rewrite Hlowest. simpl. by intros [= <- <-].
  - unfold ExactThenHighest_choose_numbers, ExactThen_choose_numbers.
    case_bool_decide as Hin; simpl.
    + intros [= <- <-]. split; [done|]. intros Hnil. by destruct (Hexact Hin).
    + rewrite Hhighest. simpl. by intros [= <- <-].
  - unfold Random_choose_numbers.
    destruct (find_all_solutions numbers roll) as [|s0 sols] eqn:Hsols.
    { by intros [= <- <-]. }
    destruct (choice_elem_of (s0 :: sols) r) as (x & -> & Hx); [done|].
    intros [= <- <-]. by apply Hfound.
  - destruct (decide (find_all_solutions numbers roll = [])) as [Hnil|Hne].
    + destruct (SolutionLength_no_solution sec numbers roll [] Hnil) as [-> _].
      simpl. by intros [= <- <-].
    + destruct (FewestNumbers_chooses sec numbers roll [] Hne)
        as (s & -> & Hs & _).
      simpl. intros [= <- <-]. by apply Hfound.
  - destruct (decide (find_all_solutions numbers roll = [])) as [Hnil|Hne].
    + destruct (SolutionLength_no_solution sec numbers roll [] Hnil) as [_ ->].
      simpl. by intros [= <- <-].
    + destruct (MostNumbers_chooses sec numbers roll [] Hne)
        as (s & -> & Hs & _).
      simpl. intros [= <- <-]. by apply Hfound.
Qed.

(** X5. No policy gives up while a move exists: on a NumberSet in
    increasing order and a roll above 0, each of the seven policies, called
    with the empty answer, leaves the answer empty exactly when no subset
    of the numbers sums to the roll (the enumeration is empty). *)
Theorem policy_declines_iff_no_move (self : strategy) (numbers : list Z)
    (roll : Z) (r : Py.rng) :
  is_policy self = true → NumberSet numbers → ascending numbers → 0 < roll →
  ∃ chosen r',
    choose_numbers self numbers roll [] r = Done (chosen, r')
    ∧ (chosen = [] ↔ find_all_solutions numbers roll = []).
Proof.
  intros Hpolicy Hset Hasc Hroll.
  destruct (choose_numbers_answer self numbers roll r Hpolicy Hset)
    as (chosen & r' & Hchoose & _).
  exists chosen, r'. split; [done|]. by eapply choose_numbers_declines.
Qed.

Lemma policy_declines_iff_no_move_witness :
  ∃ chosen r',
    choose_numbers ExactThenHighest [1; 2; 4; 8] 11 [] (λ _, O)
    = Done (chosen, r')
    ∧ (chosen = [] ↔ find_all_solutions [1; 2; 4; 8] 11 = []).
Proof.
  apply (policy_declines_iff_no_move ExactThenHighest [1; 2; 4; 8] 11 (λ _, O));
    [reflexivity|compute_done|compute_done|lia].
Defined.

(** ** The course of a game *)

Lemma list_difference_sublist (board chosen : list Z) :
  list_difference board chosen `sublist_of` board.
Proof.
  induction board as [|y board IH]; simpl; [done|].
  destruct (decide_rel elem_of y chosen); by constructor.
Qed.

Lemma sum_sublist (l' l : list Z) :
  Forall (λ n, 0 < n) l → l' `sublist_of` l → Py.sum l' ≤ Py.sum l.
Proof.
  intros Hpos Hsub. induction Hsub as [|x l1 l2 Hsub IH|x l1 l2 Hsub IH];
    [done| |]; apply Forall_cons in Hpos as [Hx Hpos]; rewrite ?sum_cons;
    specialize (IH Hpos); lia.
Qed.

Lemma sum_list_difference (board chosen : list Z) :
  NoDup board → NoDup chosen → chosen ⊆ board →
  Py.sum (list_difference board chosen) = Py.sum board - Py.sum chosen.
Proof.
  intros Hboard Hchosen Hsub.
  assert (board ≡ₚ chosen ++ list_difference board chosen) as Hperm.
  { apply NoDup_Permutation; [done| |].
    - apply NoDup_app. split_and!; [done| |by apply NoDup_list_difference].
      intros x Hx. rewrite list_elem_of_difference. tauto.
    - intros x. rewrite elem_of_app, list_elem_of_difference.
      destruct (decide (x ∈ chosen)); split; auto; tauto. }
  rewrite (sum_Permutation _ _ Hperm), sum_app. lia.
Qed.

Lemma plays_sublist (self : strategy) (board : list Z) (r : Py.rng)
    (remaining : list Z) :
  plays self board r remaining → remaining `sublist_of` board.
Proof.
  intros Hplays.
  induction Hplays as [board r roll st r' Hroll Hchoose
                      |board r roll st chosen r' remaining Hroll Hchoose Hne
                         Hrest IH]; [done|].
  etrans; [exact IH|apply list_difference_sublist].
Qed.

(** Each course of a game has the roll of its last turn, and only one. *)
Lemma plays_plays_until (self : strategy) (board : list Z) (r : Py.rng)
    (remaining : list Z) :
  plays self board r remaining → ∃ last, plays_until self board r remaining last.
Proof.
  induction 1 as [board r roll st r' Hroll Hchoose
                 |board r roll st chosen r' remaining Hroll Hchoose Hne _ [last IH]].
  - exists roll. by eapply plays_until_end.
  - exists last. by eapply plays_until_turn.
Qed.

Lemma plays_until_unique (self : strategy) (board : list Z) (r : Py.rng)
    (remaining remaining' : list Z) (last last' : Z) :
  plays_until self board r remaining last →
  plays_until self board r remaining' last' →
  remaining = remaining' ∧ last = last'.
Proof.
  intros Hplays. revert remaining' last'.
  induction Hplays as [board r roll st r' Hroll Hchoose
                      |board r roll st chosen r' remaining last Hroll Hchoose
                         Hne _ IH];
    intros remaining' last' Hplays';
    inversion Hplays' as [? ? roll0 st0 r0 Hroll0 Hchoose0
                         |? ? roll0 st0 chosen0 r0 ? ? Hroll0 Hchoose0 Hne0 Hrest];
    subst; rewrite Hroll in Hroll0; simplify_eq;
    rewrite Hchoose in Hchoose0; simplify_eq; try done.
  by apply IH.
Qed.

Lemma ascending_difference (board chosen : list Z) :
  ascending board → ascending (list_difference board chosen).
Proof. apply ascending_sublist, list_difference_sublist. Qed.

(** The roll of the last turn is a roll of the dice that no subset of the
    numbers left sums to. *)
Lemma plays_until_stuck (self : strategy) (board : list Z) (r : Py.rng)
    (remaining : list Z) (last : Z) :
  is_policy self = true → NumberSet board → ascending board →
  plays_until self board r remaining last →
  1 ≤ last ≤ 12 ∧ find_all_solutions remaining last = [].
Proof.
  intros Hpolicy Hset Hasc Hplays.
  induction Hplays as [board r roll st r' Hroll Hchoose
                      |board r roll st chosen r' remaining last Hroll Hchoose
                         Hne _ IH].
  - destruct (Game_roll_range (State board [] SelfStrategy r))
      as (roll0 & r0 & Hroll0 & Hone & Htwo).
    rewrite Hroll in Hroll0. injection Hroll0 as -> ->. simpl in *.
    assert (1 ≤ roll0 ≤ 12) as Hrange.
    { destruct (decide (board = [1])) as [Hb|Hb];
        [destruct (Hone Hb)|destruct (Htwo Hb)]; lia. }
    split; [done|].
    assert (0 < roll0) as Hpos by lia.
    by apply (choose_numbers_declines self board roll0 r0 r' [] Hpolicy Hset
                Hasc Hpos Hchoose).
  - apply IH; [by apply NumberSet_difference|by apply ascending_difference].
Qed.

(** [play], the module-level name [strategy] denoting the strategy of the
    game and that strategy starting from the empty answer. *)
Lemma Game_play_returns (self : strategy) (board : list Z) (r : Py.rng)
    (fuel : nat) :
  is_policy self = true → NumberSet board → (length board ≤ fuel)%nat →
  ∃ final,
    Game_play fuel self (State board [] SelfStrategy r) = Done final
    ∧ plays self board r (numbers final)
    ∧ answer final = [] ∧ global_strategy final = SelfStrategy.
Proof.
  intros Hpolicy Hset Hlen.
  destruct (roll_and_choose_turn self board r Hpolicy Hset)
    as (roll & st & chosen & r' & Hroll & Hchoose & Hturn & Hchosen).
  destruct (Game_play_while_course self Hpolicy fuel board chosen r' roll
              Hlen Hset Hchosen)
    as (final & Hwhile & Hanswer & Hglobal & Hafter).
  exists final. split_and!; [|by eapply plays_after_turn|done|done].
  unfold Game_play. rewrite Hturn. simpl. exact Hwhile.
Qed.

(** X6. A game ends only when no move is left: from a NumberSet in
    increasing order, with any policy and any random source (the
    module-level name [strategy] denoting the strategy of the game), [play]
    returns with a sublist of the board, and the roll of the last turn, a
    roll from 1 to 12, is one no subset of the numbers left sums to. *)
Theorem Game_play_ends_without_move (self : strategy) (board : list Z)
    (r : Py.rng) (fuel : nat) :
  is_policy self = true → NumberSet board → ascending board →
  (length board ≤ fuel)%nat →
  ∃ final last,
    Game_play fuel self (State board [] SelfStrategy r) = Done final
    ∧ numbers final `sublist_of` board
    ∧ plays_until self board r (numbers final) last
    ∧ 1 ≤ last ≤ 12
    ∧ find_all_solutions (numbers final) last = [].
Proof.
  intros Hpolicy Hset Hasc Hlen.
  destruct (Game_play_returns self board r fuel Hpolicy Hset Hlen)
    as (final & Hplay & Hplays & _).
  destruct (plays_plays_until _ _ _ _ Hplays) as [last Huntil].
  destruct (plays_until_stuck self board r (numbers final) last)
    as [Hrange Hnone]; [done..|].
  exists final, last. split_and!; try done; try lia.
  by eapply plays_sublist.
Qed.

Lemma Game_play_ends_without_move_witness :
  ∃ final last,
    Game_play 9 HighestFirst (Game_init [] SelfStrategy (λ n, (2 * n)%nat))
    = Done final
    ∧ numbers final `sublist_of` [1; 2; 3; 4; 5; 6; 7; 8; 9]
    ∧ plays_until HighestFirst [1; 2; 3; 4; 5; 6; 7; 8; 9] (λ n, (2 * n)%nat)
        (numbers final) last
    ∧ 1 ≤ last ≤ 12
    ∧ find_all_solutions (numbers final) last = [].
Proof.
  apply (Game_play_ends_without_move HighestFirst [1; 2; 3; 4; 5; 6; 7; 8; 9]
           (λ n, (2 * n)%nat) 9);
    [reflexivity|compute_done|compute_done|simpl; lia].
Defined.

(** On the full board every roll of two dice has a move. *)
Lemma full_board_has_move (roll : Z) :
  2 ≤ roll ≤ 12 → find_all_solutions [1; 2; 3; 4; 5; 6; 7; 8; 9] roll ≠ [].
Proof.
  intros Hroll.
  assert (roll = 2 ∨ roll = 3 ∨ roll = 4 ∨ roll = 5 ∨ roll = 6 ∨ roll = 7
          ∨ roll = 8 ∨ roll = 9 ∨ roll = 10 ∨ roll = 11 ∨ roll = 12)
    as Hcases by lia.
  repeat (destruct Hcases as [->|Hcases]; [by vm_compute|]).
  subst roll. by vm_compute.
Qed.

(** The score of a game that starts on the full board. *)
Lemma Game_play_score_range (self : strategy) (r : Py.rng) (fuel : nat) :
  is_policy self = true → (9 ≤ fuel)%nat →
  ∃ final,
    Game_play fuel self (Game_init [] SelfStrategy r) = Done final
    ∧ answer final = []
    ∧ 0 ≤ Game_score final ≤ 43
    ∧ (Game_score final = 0 ↔ numbers final = []).
Proof.
  intros Hpolicy Hfuel. unfold Game_init.
  set (board := [1; 2; 3; 4; 5; 6; 7; 8; 9]).
  assert (NumberSet board) as Hset by compute_done.
  assert (ascending board) as Hasc by compute_done.
  assert (Py.sum board = 45) as Hsum by reflexivity.
  destruct (Game_play_returns self board r fuel Hpolicy Hset Hfuel)
    as (final & Hplay & Hplays & Hanswer & _).
  exists final. split; [done|]. split; [done|]. split.
  - pose proof (NumberSet_positive _ Hset) as Hpos.
    assert (Forall (λ n, 0 < n) (numbers final)) as Hfinal.
    { eapply positive_subseteq; [exact Hpos|].
      apply sublist_subseteq. by eapply plays_sublist. }
    split; [by apply sum_nonneg|]. unfold Game_score.
    inversion Hplays as [? ? roll st r' Hroll Hchoose
                        |? ? roll st chosen r' ? Hroll Hchoose Hne Hrest]; subst.
    + exfalso.
      destruct (Game_roll_range (State board [] SelfStrategy r))
        as (roll0 & r0 & Hroll0 & _ & Htwo).
      rewrite Hroll in Hroll0. injection Hroll0 as -> ->. simpl in *.
      destruct Htwo as [Hrange _]; [done|].
      apply (full_board_has_move roll0 Hrange).
      assert (0 < roll0) as Hroll_pos by lia.
      by apply (choose_numbers_declines self board roll0 r0 r' [] Hpolicy Hset
                  Hasc Hroll_pos Hchoose).
    + destruct (Game_roll_range (State board [] SelfStrategy r))
        as (roll0 & r0 & Hroll0 & _ & Htwo).
      rewrite Hroll in Hroll0. injection Hroll0 as -> ->. simpl in *.
      destruct Htwo as [Hrange _]; [done|].
      destruct (choose_numbers_answer self board roll0 r0 Hpolicy Hset)
        as (chosen0 & r1 & Hchoose0 & Hsolves).
      rewrite Hchoose in Hchoose0. injection Hchoose0 as <- <-.
      destruct (Hsolves Hne) as (Hnodup & Hsub & Hchosen).
      pose proof Hset as [Hboard _].
      pose proof (sum_list_difference board chosen Hboard Hnodup Hsub) as Hdiff.
      pose proof (sum_sublist (numbers final) (list_difference board chosen))
        as Hle.
      assert (Py.sum (numbers final) ≤ Py.sum (list_difference board chosen));
        [|lia].
      apply Hle; [|by eapply plays_sublist].
      eapply positive_subseteq; [exact Hpos|].
      apply sublist_subseteq, list_difference_sublist.
  - unfold Game_score. split; [|by intros ->].
    intros Hzero. destruct (decide (numbers final = [])) as [|Hne]; [done|].
    exfalso.
    assert (0 < Py.sum (numbers final)); [|lia].
    apply sum_pos; [|done].
    eapply positive_subseteq; [exact (NumberSet_positive _ Hset)|].
    apply sublist_subseteq. by eapply plays_sublist.
Qed.

(** X7. The score of a game: with any policy and any random source (the
    module-level name [strategy] denoting the strategy of the game), a game
    made by [Game(strategy)] and played ends with a score from 0 to 43, the
    first roll always having a move on the full board; the score is 0
    exactly when every number was removed. *)
Theorem Game_score_range (self : strategy) (r : Py.rng) (fuel : nat) :
  is_policy self = true → (9 ≤ fuel)%nat →
  ∃ final,
    Game_play fuel self (Game_init [] SelfStrategy r) = Done final
    ∧ 0 ≤ Game_score final ≤ 43
    ∧ (Game_score final = 0 ↔ numbers final = []).
Proof.
  intros Hpolicy Hfuel.
  destruct (Game_play_score_range self r fuel Hpolicy Hfuel)
    as (final & Hplay & _ & Hrange & Hzero).
  by exists final.
Qed.

Lemma Game_score_range_witness :
  ∃ final,
    Game_play 9 Random (Game_init [] SelfStrategy (λ n, (3 * n + 1)%nat))
    = Done final
    ∧ 0 ≤ Game_score final ≤ 43
    ∧ (Game_score final = 0 ↔ numbers final = []).
Proof.
  apply (Game_score_range Random (λ n, (3 * n + 1)%nat) 9); [reflexivity|lia].
Defined.

(** ** The main block *)

Lemma main_games_scores (self : strategy) (fuel : nat) :
  is_policy self = true → (9 ≤ fuel)%nat →
  ∀ n r scores,
    ∃ played r',
      main_games fuel n self [] r scores = Done (scores ++ played, [], r')
      ∧ length played = n
      ∧ Forall (λ score, 0 ≤ score ≤ 43) played.
Proof.
  intros Hpolicy Hfuel. induction n as [|n IH]; intros r scores.
  { exists [], r. by rewrite app_nil_r. }
  destruct (Game_play_score_range self r fuel Hpolicy Hfuel)
    as (game & Hplay & Hanswer & Hrange & _).
  destruct (IH (random game) (scores ++ [Game_score game]))
    as (played & r' & Hrest & Hlen & Hall).
  exists (Game_score game :: played), r'. split_and!.
  - simpl. rewrite Hplay. simpl. rewrite Hanswer, Hrest.
    by rewrite <-app_assoc.
  - simpl. by rewrite Hlen.
  - by constructor.
Qed.

(** X8. The main block: one strategy object serves every game.  With any
    policy and any random source, [n] games in a row all return, each from
    the empty answer the game before left in the strategy; [n] scores are
    appended, each from 0 to 43, and the answer is empty at the end.  In
    the script, with [MostNumbers(secondary_strategy=min)], the list of
    scores has 1000 entries. *)
Theorem main_scores (self : strategy) (fuel n : nat) (r : Py.rng)
    (scores : list Z) :
  is_policy self = true → (9 ≤ fuel)%nat →
  (∃ played r',
      main_games fuel n self [] r scores = Done (scores ++ played, [], r')
      ∧ length played = n
      ∧ Forall (λ score, 0 ≤ score ≤ 43) played)
  ∧ (∃ played r',
        main fuel r = Done (played, [], r')
        ∧ length played = 1000%nat
        ∧ Forall (λ score, 0 ≤ score ≤ 43) played).
Proof.
  intros Hpolicy Hfuel. split; [by apply main_games_scores|].
  apply (main_games_scores (MostNumbers Py.min_number) fuel eq_refl Hfuel
           1000 r []).
Qed.

Lemma main_scores_witness :
  (∃ played r',
      main_games 9 3 (FewestNumbers Py.min_number) [] (λ n, (5 * n)%nat) [7]
      = Done ([7] ++ played, [], r')
      ∧ length played = 3%nat
      ∧ Forall (λ score, 0 ≤ score ≤ 43) played)
  ∧ (∃ played r',
        main 9 (λ n, (5 * n)%nat) = Done (played, [], r')
        ∧ length played = 1000%nat
        ∧ Forall (λ score, 0 ≤ score ≤ 43) played).
Proof.
  apply (main_scores (FewestNumbers Py.min_number) 9 3 (λ n, (5 * n)%nat) [7]);
    [reflexivity|lia].
Defined.

(** ** [play] without the strategy of the game under the name [strategy] *)

Lemma roll_and_choose_any (self : strategy) (board : list Z) (global : binding)
    (r : Py.rng) :
  is_policy self = true → NumberSet board →
  ∃ roll chosen r',
    roll_and_choose self (State board [] global r)
    = Done (State board chosen global r')
    ∧ (chosen ≠ [] → solves board roll chosen).
Proof.
  intros Hpolicy Hset.
  destruct (Game_roll_state (State board [] global r)) as (roll & r1 & Hroll).
  simpl in Hroll.
  destruct (choose_numbers_answer self board roll r1 Hpolicy Hset)
    as (chosen & r' & Hchoose & Hchosen).
  exists roll, chosen, r'. split; [|done].
  unfold roll_and_choose. rewrite Hroll. simpl. by rewrite Hchoose.
Qed.



(** ** The tie-break of the [SolutionLength] strategies *)

Lemma head_insert_sorted {A} (key : A → Z) (x : A) (l : list A) :
  head (Py.insert_sorted key false x l)
  = match head l with
    | Some y => if bool_decide (key y < key x) then Some y else Some x
    | None => Some x
    end.
Proof. destruct l as [|y l]; simpl; [done|]. by case_bool_decide. Qed.

(** [sorted] is stable: the first element of the result is the first
    element of the list that has the least key. *)
Lemma head_sorted_stable {A} (key : A → Z) (l : list A) (a : A) :
  head (Py.sorted key false l) = Some a →
  ∃ before after,
    l = before ++ a :: after
    ∧ (∀ x, x ∈ before → key a < key x)
    ∧ (∀ x, x ∈ after → key a ≤ key x).
Proof.
  revert a. induction l as [|x l IH]; intros a; simpl; [done|].
  fold (Py.sorted key false l). rewrite head_insert_sorted.
  destruct (head (Py.sorted key false l)) as [y|] eqn:Hhead.
  - destruct (IH y eq_refl) as (before & after & -> & Hbefore & Hafter).
    case_bool_decide as Hlt; intros [= <-].
    + exists (x :: before), after. split_and!; [done| |done].
      intros z [->|Hz]%elem_of_cons; [done|by apply Hbefore].
    + exists [], (before ++ y :: after). split_and!; [done| |].
      * by intros z ?%elem_of_nil.
      * intros z [Hz|[->|Hz]%elem_of_cons]%elem_of_app.
        -- specialize (Hbefore z Hz). lia.
        -- lia.
        -- specialize (Hafter z Hz). lia.
  - intros [= <-]. exists [], l. split_and!; [done| |].
    + by intros z ?%elem_of_nil.
    + assert (l = []) as ->; [|by intros z ?%elem_of_nil].
      pose proof (sorted_Permutation key false l) as Hperm.
      destruct (Py.sorted key false l); [|done].
      by apply Permutation_nil_l in Hperm.
Qed.

Section SolutionLength_tie.
Variable secondary_strategy : list Z → Z.
Variables (numbers : list Z) (roll : Z) (answer : list Z).

Lemma FewestNumbers_first_tie (chosen : list Z) :
  find_all_solutions numbers roll ≠ [] →
  FewestNumbers_choose_numbers secondary_strategy numbers roll answer
  = Done chosen →
  ∃ before after,
    filter (λ s, length s = length chosen) (find_all_solutions numbers roll)
    = before ++ chosen :: after
    ∧ ∀ s, s ∈ before → secondary_strategy chosen < secondary_strategy s.
Proof.
  intros Hne. unfold FewestNumbers_choose_numbers.
  destruct (find_all_solutions numbers roll) as [|s0 sols] eqn:Hsols; [done|].
  rewrite fmap_cons. simpl.
  generalize (foldl Nat.min (length s0) (length <$> sols)). intros shortest.
  unfold Py.first.
  destruct (head (Py.sorted secondary_strategy false
                    (filter (λ s, length s = shortest) (s0 :: sols))))
    as [a|] eqn:Hhead; simpl; [|done].
  intros [= ->].
  destruct (head_sorted_stable _ _ _ Hhead) as (before & after & Heq & Hbefore & _).
  assert (length chosen = shortest) as <-.
  { assert (chosen ∈ filter (λ s, length s = shortest) (s0 :: sols)) as Hin
      by (rewrite Heq; set_solver).
    by apply list_elem_of_filter in Hin as [? _]. }
  by exists before, after.
Qed.

Lemma MostNumbers_first_tie (chosen : list Z) :
  find_all_solutions numbers roll ≠ [] →
  MostNumbers_choose_numbers secondary_strategy numbers roll answer
  = Done chosen →
  ∃ before after,
    filter (λ s, length s = length chosen) (find_all_solutions numbers roll)
    = before ++ chosen :: after
    ∧ ∀ s, s ∈ before → secondary_strategy chosen < secondary_strategy s.
Proof.
  intros Hne. unfold MostNumbers_choose_numbers.
  destruct (find_all_solutions numbers roll) as [|s0 sols] eqn:Hsols; [done|].
  rewrite fmap_cons. simpl.
  generalize (foldl Nat.max (length s0) (length <$> sols)). intros longest.
  unfold Py.first.
  destruct (head (Py.sorted secondary_strategy false
                    (filter (λ s, length s = longest) (s0 :: sols))))
    as [a|] eqn:Hhead; simpl; [|done].
  intros [= ->].
  destruct (head_sorted_stable _ _ _ Hhead) as (before & after & Heq & Hbefore & _).
  assert (length chosen = longest) as <-.
  { assert (chosen ∈ filter (λ s, length s = longest) (s0 :: sols)) as Hin
      by (rewrite Heq; set_solver).
    by apply list_elem_of_filter in Hin as [? _]. }
  by exists before, after.
Qed.

End SolutionLength_tie.

(** X11. Ties are broken by the order of the enumeration: when several
    solutions of the extremal length share the least [secondary_strategy]
    value, [FewestNumbers] and [MostNumbers] choose the one that
    [find_all_solutions] lists first ([sorted] is stable and [[0]] takes
    its first element). *)
Theorem SolutionLength_tie_break (secondary_strategy : list Z → Z)
    (numbers : list Z) (roll : Z) (answer : list Z) :
  find_all_solutions numbers roll ≠ [] →
  (∃ chosen before after,
      FewestNumbers_choose_numbers secondary_strategy numbers roll answer
      = Done chosen
      ∧ filter (λ s, length s = length chosen) (find_all_solutions numbers roll)
        = before ++ chosen :: after
      ∧ ∀ s, s ∈ before → secondary_strategy chosen < secondary_strategy s)
  ∧ (∃ chosen before after,
        MostNumbers_choose_numbers secondary_strategy numbers roll answer
        = Done chosen
        ∧ filter (λ s, length s = length chosen) (find_all_solutions numbers roll)
          = before ++ chosen :: after
        ∧ ∀ s, s ∈ before → secondary_strategy chosen < secondary_strategy s).
Proof.
  intros Hne. split.
  - destruct (FewestNumbers_chooses secondary_strategy numbers roll answer Hne)
      as (chosen & Hcall & _).
    destruct (FewestNumbers_first_tie secondary_strategy numbers roll answer
                chosen Hne Hcall) as (before & after & Heq & Hbefore).
    by exists chosen, before, after.
  - destruct (MostNumbers_chooses secondary_strategy numbers roll answer Hne)
      as (chosen & Hcall & _).
    destruct (MostNumbers_first_tie secondary_strategy numbers roll answer
                chosen Hne Hcall) as (before & after & Heq & Hbefore).
    by exists chosen, before, after.
Qed.

Lemma SolutionLength_tie_break_witness :
  (∃ chosen before after,
      FewestNumbers_choose_numbers (λ _, 0) [1; 2; 3; 4; 5; 6; 7; 8; 9] 10 []
      = Done chosen
      ∧ filter (λ s, length s = length chosen)
          (find_all_solutions [1; 2; 3; 4; 5; 6; 7; 8; 9] 10)
        = before ++ chosen :: after
      ∧ ∀ s, s ∈ before → (λ _ : list Z, 0) chosen < (λ _ : list Z, 0) s)
  ∧ (∃ chosen before after,
        MostNumbers_choose_numbers (λ _, 0) [1; 2; 3; 4; 5; 6; 7; 8; 9] 10 []
        = Done chosen
        ∧ filter (λ s, length s = length chosen)
            (find_all_solutions [1; 2; 3; 4; 5; 6; 7; 8; 9] 10)
          = before ++ chosen :: after
        ∧ ∀ s, s ∈ before → (λ _ : list Z, 0) chosen < (λ _ : list Z, 0) s).
Proof.
  apply (SolutionLength_tie_break (λ _, 0) [1; 2; 3; 4; 5; 6; 7; 8; 9] 10 []).
  by vm_compute.
Defined.

(** ** [Random]: the solutions within reach *)

(** X12. [Random] can give every solution and nothing else: when the
    enumeration is not empty, the answers [choose_numbers] sets, over all
    random sources, are exactly the enumerated solutions. *)
Theorem Random_reaches_every_solution (numbers : list Z) (roll : Z)
    (answer s : list Z) :
  find_all_solutions numbers roll ≠ [] →
  (∃ r r', Random_choose_numbers numbers roll answer r = Done (s, r'))
  ↔ s ∈ find_all_solutions numbers roll.
Proof.
  intros Hne. unfold Random_choose_numbers.
  destruct (find_all_solutions numbers roll) as [|s0 sols] eqn:Hsols; [done|].
  split.
  - intros (r & r' & Hcall).
    destruct (choice_elem_of (s0 :: sols) r) as (x & Hx & Hin); [done|].
    rewrite Hx in Hcall. by injection Hcall as <- _.
  - intros [i Hi]%list_elem_of_lookup_1.
    exists (λ _, i), (Py.advance (λ _, i)). unfold Py.choice.
    rewrite Nat.mod_small by (by eapply lookup_lt_Some).
    by rewrite Hi.
Qed.

Lemma Random_reaches_every_solution_witness :
  (∃ r r', Random_choose_numbers [1; 2; 3; 4] 5 [] r = Done ([2; 3], r'))
  ↔ [2; 3] ∈ find_all_solutions [1; 2; 3; 4] 5.
Proof.
  apply (Random_reaches_every_solution [1; 2; 3; 4] 5 [] [2; 3]). by vm_compute.
Defined.

(** ** [find_all_solutions] across boards and targets *)





(** ** The two tie-breaks of the script *)

Lemma sublist_elem_of_sublists (l' l : list Z) :
  l' `sublist_of` l → l' ∈ sublists l.
Proof.
  induction 1 as [|x l1 l2 Hsub IH|x l1 l2 Hsub IH]; simpl.
  - by left.
  - apply elem_of_app. left. apply list_elem_of_fmap. by exists l1.
  - apply elem_of_app. by right.
Qed.

Lemma SolutionLength_answer (secondary_strategy : list Z → Z)
    (numbers : list Z) (roll : Z) (answer : list Z) :
  find_all_solutions numbers roll ≠ [] →
  FewestNumbers_choose_numbers secondary_strategy numbers roll answer
  = FewestNumbers_choose_numbers secondary_strategy numbers roll []
  ∧ MostNumbers_choose_numbers secondary_strategy numbers roll answer
    = MostNumbers_choose_numbers secondary_strategy numbers roll [].
Proof.
  intros Hne. unfold FewestNumbers_choose_numbers, MostNumbers_choose_numbers.
  by destruct (find_all_solutions numbers roll).
Qed.

Lemma secondary_strategies_agree_on_boards :
  Forall (λ board,
    Forall (λ roll,
      FewestNumbers_choose_numbers Py.min_number board roll []
      = FewestNumbers_choose_numbers Py.neg_max_number board roll []
      ∧ MostNumbers_choose_numbers Py.min_number board roll []
        = MostNumbers_choose_numbers Py.neg_max_number board roll [])
      (seqZ 1 12))
    (sublists [1; 2; 3; 4; 5; 6; 7; 8; 9]).
Proof. compute_done. Qed.

(** X15. The remark in the docstring of [SolutionLength], that the
    modularity "isn't required for just min and max", holds for this game:
    on every board a game can come to (a sublist of 1 to 9) and every roll
    from 1 to 12, [FewestNumbers] chooses the same solution with [min] as
    with [lambda x: -1 * max(x)], and so does [MostNumbers]. *)
Theorem secondary_strategies_agree (board : list Z) (roll : Z) (answer : list Z) :
  board `sublist_of` [1; 2; 3; 4; 5; 6; 7; 8; 9] → 1 ≤ roll ≤ 12 →
  FewestNumbers_choose_numbers Py.min_number board roll answer
  = FewestNumbers_choose_numbers Py.neg_max_number board roll answer
  ∧ MostNumbers_choose_numbers Py.min_number board roll answer
    = MostNumbers_choose_numbers Py.neg_max_number board roll answer.
Proof.
  intros Hboard%sublist_elem_of_sublists Hroll.
  pose proof secondary_strategies_agree_on_boards as Hall.
  rewrite Forall_forall in Hall. specialize (Hall board Hboard).
  rewrite Forall_forall in Hall. specialize (Hall roll).
  destruct Hall as [Hfewest Hmost]; [apply elem_of_seqZ; lia|].
  destruct (decide (find_all_solutions board roll = [])) as [Hnil|Hne].
  - unfold FewestNumbers_choose_numbers, MostNumbers_choose_numbers.
    by rewrite Hnil.
  - destruct (SolutionLength_answer Py.min_number board roll answer Hne)
      as [-> ->].
    by destruct (SolutionLength_answer Py.neg_max_number board roll answer Hne)
      as [-> ->].
Qed.

Lemma secondary_strategies_agree_witness :
  FewestNumbers_choose_numbers Py.min_number [1; 2; 3; 4; 5; 6] 12 [8]
  = FewestNumbers_choose_numbers Py.neg_max_number [1; 2; 3; 4; 5; 6] 12 [8]
  ∧ MostNumbers_choose_numbers Py.min_number [1; 2; 3; 4; 5; 6] 12 [8]
    = MostNumbers_choose_numbers Py.neg_max_number [1; 2; 3; 4; 5; 6] 12 [8].
Proof.
  apply (secondary_strategies_agree [1; 2; 3; 4; 5; 6] 12 [8]);
    [repeat constructor|lia].
Defined.

(** ** [FewestNumbers] and the exact match *)

Lemma singleton_sublist (x : Z) (l : list Z) : x ∈ l → [x] `sublist_of` l.
Proof.
  intros (l1 & l2 & ->)%list_elem_of_split.
  apply sublist_inserts_l, sublist_skip, sublist_nil_l.
Qed.

(** X16. [FewestNumbers] takes the exact match: when the roll is one of
    the numbers of a NumberSet, it sets the answer to the roll alone,
    whatever the [secondary_strategy] and the answer before the call, as
    [ExactThenLowest] and [ExactThenHighest] do from the empty answer. *)
Theorem FewestNumbers_exact (secondary_strategy : list Z → Z)
    (numbers : list Z) (roll : Z) (answer : list Z) :
  NumberSet numbers → roll ∈ numbers →
  FewestNumbers_choose_numbers secondary_strategy numbers roll answer
  = Done [roll].
Proof.
  intros Hset Hin.
  pose proof (NumberSet_positive _ Hset) as Hpos.
  assert (0 < roll) as Hroll.
  { rewrite Forall_forall in Hpos. by apply Hpos. }
  assert ([roll] ∈ find_all_solutions numbers roll) as Hexact.
  { apply elem_of_find_all_solutions; [done|].
    split; [by apply singleton_sublist|]. rewrite sum_cons, sum_nil. lia. }
  destruct (FewestNumbers_chooses secondary_strategy numbers roll answer)
    as (chosen & -> & Hchosen & Hshortest & _).
  { intros Hnil. rewrite Hnil in Hexact. by apply elem_of_nil in Hexact. }
  f_equal. specialize (Hshortest [roll] Hexact). simpl in Hshortest.
  pose proof (find_all_solutions_nonempty numbers roll chosen Hset Hroll Hchosen).
  apply find_all_solutions_solves in Hchosen as (_ & _ & Hsum); [|done].
  destruct chosen as [|x [|y chosen]]; [done| |simpl in Hshortest; lia].
  rewrite sum_cons, sum_nil in Hsum. f_equal. lia.
Qed.

Lemma FewestNumbers_exact_witness :
  FewestNumbers_choose_numbers Py.neg_max_number [1; 2; 3; 4; 5; 6; 7; 8; 9] 7 [3]
  = Done [7].
Proof.
  apply (FewestNumbers_exact Py.neg_max_number [1; 2; 3; 4; 5; 6; 7; 8; 9] 7 [3]);
    compute_done.
Defined.

(** ** [LowestFirst] and the order of the enumeration *)

(** The solutions a pass of the loop appends are those it appends from the
    empty [subsolution], each after [subsolution]. *)
Lemma recurse_for_prefix (numbers : list Z) :
  ∀ target subsolution,
    recurse_for numbers target subsolution []
    = (subsolution ++.) <$> recurse_for numbers target [] [].
Proof.
  induction numbers as [|number rest IH]; intros target sub; [done|].
  assert (∀ target' s,
            recurse rest target' s [] = (s ++.) <$> recurse rest target' [] [])
    as Hcall.
  { intros target' s. rewrite !recurse_nil, fmap_app, (IH target' s).
    repeat case_bool_decide; simpl; by rewrite ?app_nil_r. }
  rewrite !recurse_for_cons_nil, fmap_app, (IH target sub).
  f_equal. rewrite (Hcall _ (sub ++ [number])), (Hcall _ ([] ++ [number])).
  rewrite <-list_fmap_compose. apply list_fmap_ext.
  intros _ x _. simpl. by rewrite <-app_assoc.
Qed.

Lemma recurse_prefix (numbers : list Z) target subsolution :
  recurse numbers target subsolution []
  = (subsolution ++.) <$> recurse numbers target [] [].
Proof.
  rewrite !recurse_nil, fmap_app, (recurse_for_prefix numbers target subsolution).
  repeat case_bool_decide; simpl; by rewrite ?app_nil_r.
Qed.

(** A call appends nothing when no sublist sums to the target. *)
Lemma recurse_empty (numbers : list Z) target subsolution :
  (∀ r, r `sublist_of` numbers → Py.sum r ≠ target) →
  recurse numbers target subsolution [] = [].
Proof.
  intros Hnone.
  destruct (recurse numbers target subsolution []) as [|x l] eqn:Hcall; [done|].
  exfalso.
  assert (x ∈ recurse numbers target subsolution []) as Hx
    by (rewrite Hcall; by left).
  apply elem_of_recurse_nil in Hx as [[_ ->]|[_ Hx]].
  - by apply (Hnone []); [apply sublist_nil_l|].
  - apply recurse_for_sound in Hx as (r & _ & _ & Hsub & Hsum).
    by apply (Hnone r).
Qed.

(** The numbers that belong to no solution can be left out of the list. *)
Lemma recurse_for_skip (visited rest : list Z) target subsolution :
  (∀ m s, m ∈ visited → s `sublist_of` visited ++ rest →
          Py.sum s = target → m ∉ s) →
  recurse_for (visited ++ rest) target subsolution []
  = recurse_for rest target subsolution [].
Proof.
  induction visited as [|v visited IH]; intros Hnone; [done|].
  simpl app. rewrite recurse_for_cons_nil, recurse_empty.
  - apply IH. intros m s Hm Hs. apply Hnone; [by right|].
    by apply sublist_cons.
  - intros r Hr Hsum. apply (Hnone v (v :: r)); [by left| | |by left].
    + by apply sublist_skip.
    + rewrite sum_cons. lia.
Qed.

Lemma recurse_skip (visited rest : list Z) target subsolution :
  (∀ m s, m ∈ visited → s `sublist_of` visited ++ rest →
          Py.sum s = target → m ∉ s) →
  recurse (visited ++ rest) target subsolution []
  = recurse rest target subsolution [].
Proof. intros Hnone. by rewrite !recurse_nil, recurse_for_skip. Qed.

Lemma list_remove_middle (x : Z) (l1 l2 : list Z) :
  x ∉ l1 → Py.list_remove x (l1 ++ x :: l2) = Some (l1 ++ l2).
Proof.
  induction l1 as [|y l1 IH]; intros Hx; simpl.
  - by rewrite bool_decide_eq_true_2.
  - apply not_elem_of_cons in Hx as [Hne Hx].
    rewrite bool_decide_eq_false_2 by congruence. by rewrite IH.
Qed.

Lemma sublist_solves (numbers : list Z) (target : Z) (s : list Z) :
  NoDup numbers → s `sublist_of` numbers → Py.sum s = target →
  solves numbers target s.
Proof.
  intros Hnodup Hsub Hsum.
  split_and!; [by eapply sublist_NoDup|by apply sublist_subseteq|done].
Qed.

Section LowestFirst_loop_head.
Variable self_call : list Z → Z → list Z → res (bool * list Z).
Variables (numbers : list Z) (roll : Z).
Hypothesis numbers_ascending : ascending numbers.
Hypothesis numbers_positive : Forall (λ n, 0 < n) numbers.
Hypothesis self_call_result :
  ∀ new_nums roll' answer,
    NoDup new_nums → fresh_for answer new_nums →
    length numbers = S (length new_nums) →
    greedy_result new_nums roll' answer (self_call new_nums roll' answer).
Hypothesis self_call_fails :
  ∀ new_nums roll' answer answer',
    ascending new_nums → Forall (λ n, 0 < n) new_nums →
    fresh_for answer new_nums → length numbers = S (length new_nums) →
    self_call new_nums roll' answer = Done (false, answer') →
    ∀ s, ¬ solves new_nums roll' s.
Hypothesis self_call_head :
  ∀ new_nums roll' answer answer',
    ascending new_nums → Forall (λ n, 0 < n) new_nums →
    fresh_for answer new_nums → length numbers = S (length new_nums) →
    self_call new_nums roll' answer = Done (true, answer') →
    ∃ r, answer' = answer ++ r ∧ head (recurse new_nums roll' [] []) = Some r.

Lemma LowestFirst_for_head (todo : list Z) :
  ∀ visited answer answer',
    numbers = visited ++ todo → fresh_for answer numbers →
    (∀ m s, m ∈ visited → solves numbers roll s → m ∉ s) →
    LowestFirst_for self_call numbers roll todo answer = Done (true, answer') →
    ∃ r, answer' = answer ++ r
         ∧ head (recurse_for todo roll [] []) = Some r.
Proof.
  pose proof (ascending_NoDup _ numbers_ascending) as Hnodup.
  induction todo as [|number todo IH];
    intros visited answer answer' Hsplit Hfresh Hvisited; simpl LowestFirst_for;
    [done|].
  assert (number ∈ numbers) as Hin by (rewrite Hsplit; set_solver).
  case_bool_decide as Hlarge; [done|].
  destruct (greedy_pass self_call numbers roll Hnodup self_call_result
              number answer Hin Hfresh) as (new_nums & Hrm & Hpass).
  rewrite Hrm. cbn [or_raise mbind res_bind].
  assert (new_nums = visited ++ todo) as Hnew.
  { assert (number ∉ visited) as Hnotin.
    { rewrite Hsplit in Hnodup. apply NoDup_app in Hnodup as (_ & Hdisj & _).
      intros Hv. apply (Hdisj number Hv). by left. }
    rewrite Hsplit, (list_remove_middle number visited todo Hnotin) in Hrm.
    by injection Hrm. }
  assert (ascending new_nums) as Hnew_asc.
  { eapply ascending_sublist; [|exact numbers_ascending].
    by eapply list_remove_sublist. }
  assert (Forall (λ n, 0 < n) new_nums) as Hnew_pos.
  { eapply positive_subseteq; [exact numbers_positive|].
    apply sublist_subseteq. by eapply list_remove_sublist. }
  pose proof (fresh_for_snoc answer numbers new_nums number Hnodup Hrm Hfresh)
    as Hnew_fresh.
  pose proof (list_remove_length _ _ _ Hrm) as Hnew_len.
  rewrite recurse_for_cons_nil, recurse_prefix.
  destruct Hpass as [(r & Hcall & Hr)|[Hcall Hback]]; rewrite Hcall;
    cbn [or_raise mbind res_bind].
  - intros [= <-].
    destruct (self_call_head _ _ _ _ Hnew_asc Hnew_pos Hnew_fresh Hnew_len Hcall)
      as (r' & Heq & Hhead).
    rewrite <-app_assoc in Heq. apply app_inv_head in Heq.
    injection Heq as <-.
    exists (number :: r). split; [done|].
    rewrite Hnew, recurse_skip in Hhead.
    + destruct (recurse todo (roll - number) [] []); by simplify_eq/=.
    + intros m s Hm Hs Hsum Hms. rewrite <-Hnew in Hs.
      apply (Hvisited m (number :: s)); [done| |by right].
      apply (solves_cons numbers new_nums); [done|done|].
      apply sublist_solves; [by apply ascending_NoDup|done|done].
  - rewrite Hback. cbn [or_raise mbind res_bind].
    pose proof (self_call_fails _ _ _ _ Hnew_asc Hnew_pos Hnew_fresh Hnew_len
                  Hcall) as Hnone.
    rewrite recurse_empty.
    + apply (IH (visited ++ [number])); [by rewrite <-app_assoc|done|].
      intros m s [Hm| ->%list_elem_of_singleton]%elem_of_app Hs;
        [by apply Hvisited|].
      intros Hms.
      destruct (solves_without numbers new_nums roll number s Hrm Hs Hms)
        as [s' Hs'].
      by apply (Hnone s').
    + intros r Hr Hsum. apply (Hnone r).
      apply sublist_solves; [by apply ascending_NoDup| |done].
      rewrite Hnew. by apply sublist_inserts_l.
Qed.

End LowestFirst_loop_head.

Lemma LowestFirst_head (fuel : nat) :
  ∀ numbers roll answer answer',
    ascending numbers → Forall (λ n, 0 < n) numbers →
    fresh_for answer numbers → (length numbers < fuel)%nat →
    LowestFirst_choose_numbers_in fuel numbers roll answer
    = Done (true, answer') →
    ∃ r, answer' = answer ++ r ∧ head (recurse numbers roll [] []) = Some r.
Proof.
  induction fuel as [|fuel IH];
    intros numbers roll answer answer' Hasc Hpos Hfresh Hlen; [lia|].
  intros Hcall.
  destruct (LowestFirst_result (S fuel) numbers roll answer
              (ascending_NoDup _ Hasc) Hfresh Hlen)
    as (found & answer0 & Hcall0 & Hpost).
  rewrite Hcall in Hcall0. injection Hcall0 as <- <-.
  destruct Hpost as (r0 & _ & Hr0).
  assert (0 ≤ roll) as Hroll.
  { destruct Hr0 as (_ & Hsub & <-). apply sum_nonneg.
    by eapply positive_subseteq. }
  simpl in Hcall. case_bool_decide as Hzero.
  { injection Hcall as <-. exists []. rewrite app_nil_r. split; [done|].
    subst roll. by rewrite recurse_nil. }
  apply (LowestFirst_for_head _ numbers roll Hasc Hpos) with (visited := [])
    in Hcall; [| | | |done|done|].
  - destruct Hcall as (r & -> & Hhead). exists r. split; [done|].
    rewrite recurse_nil.
    rewrite (bool_decide_eq_false_2 (roll = 0)) by done.
    by rewrite (bool_decide_eq_false_2 (roll < 0)) by lia.
  - intros new_nums roll' answer1 ? ? Hshorter.
    apply LowestFirst_result; [done|done|lia].
  - intros new_nums roll' answer1 answer1' ? ? ? Hshorter Hfalse.
    apply (LowestFirst_complete fuel new_nums roll' answer1 false answer1');
      [done|done|done|lia|done].
  - intros new_nums roll' answer1 answer1' ? ? ? Hshorter.
    apply IH; [done|done|done|lia].
  - by intros m s ?%elem_of_nil.
Qed.

(** X18. [LowestFirst] finds what the enumeration lists first: on a
    NumberSet in increasing order and a roll above 0, called with the
    empty answer, it sets the answer to the first element of
    [find_all_solutions(numbers, roll)], and leaves it empty when that list
    is empty. *)
Theorem LowestFirst_first_enumerated (numbers : list Z) (roll : Z) :
  NumberSet numbers → ascending numbers → 0 < roll →
  ∃ found,
    LowestFirst_choose_numbers numbers roll []
    = Done (found, default [] (head (find_all_solutions numbers roll))).
Proof.
  intros Hset Hasc Hroll.
  pose proof (NumberSet_positive _ Hset) as Hpos.
  destruct (LowestFirst_valid numbers roll Hset Hasc Hroll)
    as (found & answer & Hcall & Hin & Hnone).
  exists found. rewrite Hcall. do 2 f_equal.
  destruct found.
  - destruct (LowestFirst_head (S (length numbers)) numbers roll [] answer
                Hasc Hpos (fresh_for_nil numbers) (Nat.lt_succ_diag_r _) Hcall)
      as (r & -> & Hhead).
    unfold find_all_solutions. by rewrite Hhead.
  - destruct (LowestFirst_result (S (length numbers)) numbers roll []
                (ascending_NoDup _ Hasc) (fresh_for_nil numbers)
                (Nat.lt_succ_diag_r _))
      as (found0 & answer0 & Hcall0 & Hpost).
    unfold LowestFirst_choose_numbers in Hcall.
    rewrite Hcall in Hcall0. injection Hcall0 as <- <-. subst answer.
    by rewrite Hnone.
Qed.

Lemma LowestFirst_first_enumerated_witness :
  ∃ found,
    LowestFirst_choose_numbers [2; 3; 5; 7; 8] 10 []
    = Done (found, default [] (head (find_all_solutions [2; 3; 5; 7; 8] 10))).
Proof.
  apply (LowestFirst_first_enumerated [2; 3; 5; 7; 8] 10);
    [compute_done|compute_done|lia].
Defined.

(** ** [HighestFirst] and the enumeration *)

Lemma descending_reverse (l : list Z) : descending l → ascending (reverse l).
Proof.
  induction 1 as [|x l Hl IH Hx]; [constructor|].
  rewrite reverse_cons. apply StronglySorted_app. split_and!; [|done|].
  - intros y z Hy ->%list_elem_of_singleton.
    rewrite elem_of_reverse in Hy. rewrite Forall_forall in Hx. by apply Hx.
  - repeat constructor.
Qed.

(** X10. The answer of [HighestFirst], read backwards, is a solution the
    enumeration lists: on a NumberSet in increasing order and a roll above
    0, when the search succeeds from the empty answer, the reversed answer
    is an element of [find_all_solutions(numbers, roll)]. *)
Theorem HighestFirst_reverse_enumerated (numbers : list Z) (roll : Z)
    (answer : list Z) :
  NumberSet numbers → ascending numbers → 0 < roll →
  HighestFirst_choose_numbers numbers roll [] = Done (true, answer) →
  reverse answer ∈ find_all_solutions numbers roll.
Proof.
  intros Hset Hasc Hroll Hcall. pose proof Hset as [Hnodup _].
  pose proof (NumberSet_positive _ Hset) as Hpos.
  destruct (HighestFirst_highest (S (length numbers)) numbers roll [] answer
              Hnodup Hpos (fresh_for_nil numbers) (Nat.lt_succ_diag_r _) Hcall)
    as (r & -> & Hdesc & _).
  destruct (HighestFirst_result (S (length numbers)) numbers roll [] Hnodup
              (fresh_for_nil numbers) (Nat.lt_succ_diag_r _))
    as (found & answer0 & Hcall0 & Hpost).
  unfold HighestFirst_choose_numbers in Hcall.
  rewrite Hcall in Hcall0. injection Hcall0 as <- <-.
  destruct Hpost as (r0 & Heq & _ & Hsub & Hsum). simpl in *. subst r0.
  apply elem_of_find_all_solutions; [done|]. split.
  - apply ascending_subseteq_sublist; [by apply descending_reverse|done|].
    intros x Hx. apply Hsub. by rewrite elem_of_reverse in Hx.
  - by rewrite (sum_Permutation _ _ (reverse_Permutation r)).
Qed.

Lemma HighestFirst_reverse_enumerated_witness :
  reverse [9; 3] ∈ find_all_solutions [1; 2; 3; 4; 5; 6; 7; 8; 9] 12.
Proof.
  apply (HighestFirst_reverse_enumerated [1; 2; 3; 4; 5; 6; 7; 8; 9] 12 [9; 3]);
    [compute_done|compute_done|lia|reflexivity].
Defined.
